(** * Tee-time reservation bot: slot selection and the polling loop

    A shallow embedding of [tee_time_reservations.py]:
    - [to_minutes], [get_availability], [pick_slot] (domain logic),
    - [poll_for_slot] (the acquisition loop with its backoff and deadline).

    JSON objects are finite maps from field names to JSON values, Python
    exceptions are an error result, and the loop runs against an explicit
    world: a clock and the replies the booking service is going to give. *)

From Stdlib Require Import Ascii String QArith Qminmax Qround Lqa.
From stdpp Require Import gmap strings list fin_maps sorting.

Local Open Scope string_scope.
Local Open Scope list_scope.
Local Open Scope Z_scope.

(** ** Python values and exceptions *)

(** The exception classes the code can meet.  [RequestException] stands for
    the whole [requests.RequestException] family (connection errors,
    timeouts, [HTTPError] from [raise_for_status]). *)
Inductive exn :=
  | RequestException
  | KeyError
  | ValueError
  | TypeError
  | AttributeError
  | OverflowError.

Global Instance exn_eq_dec : EqDecision exn.
Proof. solve_decision. Defined.

(** A computation that returns or raises. *)
Inductive result (A : Type) :=
  | Ok (a : A)
  | Raise (e : exn).
Arguments Ok {A} a.
Arguments Raise {A} e.

Global Instance result_ret : MRet result := fun A a => Ok a.

Global Instance result_bind : MBind result := fun A B k r =>
  match r with
  | Ok a => k a
  | Raise e => Raise e
  end.

(** Values met in decoded JSON and in request payloads.  Floats are kept as
    exact rationals (non-finite floats are outside the model); arrays and
    nested objects are never inspected by the code and collapse to
    [VCompound]. *)
Inductive value :=
  | VNone
  | VBool (b : bool)
  | VInt (n : Z)
  | VFloat (q : Q)
  | VStr (s : string)
  | VCompound.

(** A decoded JSON object / a Python [dict] with string keys. *)
Abbreviation dict := (gmap string value).

(** ** [to_minutes] *)

(** [str.split(":")]: cut at every colon; never returns the empty list. *)
Fixpoint split_colon (s : string) : list string :=
  match s with
  | EmptyString => [EmptyString]
  | String c rest =>
      if Ascii.eqb c ":"%char then EmptyString :: split_colon rest
      else match split_colon rest with
           | hd :: tl => String c hd :: tl
           | [] => [String c EmptyString]
           end
  end.

(** The characters [int()] strips from an ASCII string as white space:
    tab to carriage return, and the space. *)
Definition is_space (c : ascii) : bool :=
  let n := N_of_ascii c in
  ((9 <=? n) && (n <=? 13) || (n =? 32))%N.

Fixpoint lstrip (s : string) : string :=
  match s with
  | String c rest => if is_space c then lstrip rest else s
  | EmptyString => EmptyString
  end.

Fixpoint rstrip (s : string) : string :=
  match s with
  | EmptyString => EmptyString
  | String c rest =>
      match rstrip rest with
      | EmptyString => if is_space c then EmptyString else String c EmptyString
      | r => String c r
      end
  end.

Definition strip (s : string) : string := rstrip (lstrip s).

Definition digit_of (c : ascii) : option Z :=
  let n := N_of_ascii c in
  if ((48 <=? n) && (n <=? 57))%N then Some (Z.of_N n - 48) else None.

(** Digits after the first one; a single underscore may sit between two
    digits. [pending] says the previous character was an underscore. *)
Fixpoint digits_val (acc : Z) (pending : bool) (s : string) : option Z :=
  match s with
  | EmptyString => if pending then None else Some acc
  | String c rest =>
      if Ascii.eqb c "_"%char then
        if pending then None else digits_val acc true rest
      else
        match digit_of c with
        | Some d => digits_val (10 * acc + d) false rest
        | None => None
        end
  end.

Definition unsigned_int (s : string) : option Z :=
  match s with
  | EmptyString => None
  | String c rest =>
      match digit_of c with
      | Some d => digits_val d false rest
      | None => None
      end
  end.

(** The number of decimal digits in a string. *)
Fixpoint digit_count (s : string) : Z :=
  match s with
  | EmptyString => 0
  | String c rest =>
      (match digit_of c with Some _ => 1 | None => 0 end) + digit_count rest
  end.

(** The interpreter's default limit on the digits of an integer string. *)
Definition int_max_str_digits : Z := 4300.

(** [int(s)] on an ASCII string, base ten: optional white space around an
    optional sign and a digit string of at most [int_max_str_digits]
    digits. Anything else is a [ValueError]. *)
Definition py_int (s : string) : result Z :=
  let t := strip s in
  let parsed :=
    match t with
    | String c rest =>
        if Ascii.eqb c "+"%char then unsigned_int rest
        else if Ascii.eqb c "-"%char then Z.opp <$> unsigned_int rest
        else unsigned_int t
    | EmptyString => None
    end in
  match parsed with
  | Some n => if int_max_str_digits <? digit_count t then Raise ValueError else Ok n
  | None => Raise ValueError
  end.

(** [h, m = map(int, hhmm.split(":")); return 60 * h + m].  Unpacking
    anything but two parts is a [ValueError], as is a part [int] rejects. *)
Definition to_minutes (hhmm : string) : result Z :=
  match split_colon hhmm with
  | [a; b] =>
      h ← py_int a;
      m ← py_int b;
      Ok (60 * h + m)
  | _ => Raise ValueError
  end.

(** [to_minutes] applied to whatever Python object is at hand: only [str]
    has a [split] method. *)
Definition to_minutes_value (v : value) : result Z :=
  match v with
  | VStr s => to_minutes s
  | _ => Raise AttributeError
  end.

(** [to_minutes(a["Hora"])]: the sort key and the time of day of a slot. *)
Definition hora_minutes (a : dict) : result Z :=
  match a !! "Hora" with
  | Some v => to_minutes_value v
  | None => Raise KeyError
  end.

(** ** List helpers with Python's evaluation order *)

(** A list comprehension [[x for x in l if f x]] whose condition may raise:
    elements are visited left to right and the first exception wins. *)
Fixpoint filter_r {A} (f : A → result bool) (l : list A) : result (list A) :=
  match l with
  | [] => Ok []
  | x :: rest =>
      b ← f x;
      kept ← filter_r f rest;
      Ok (if b : bool then x :: kept else kept)
  end.

(** [[(key x, x) for x in l]], again left to right. *)
Fixpoint decorate {A} (key : A → result Z) (l : list A) : result (list (Z * A)) :=
  match l with
  | [] => Ok []
  | x :: rest =>
      k ← key x;
      ds ← decorate key rest;
      Ok ((k, x) :: ds)
  end.

Section stable_sort.
Context {A : Type}.

(** Put [x] in front of the first element whose key is not smaller.
    Only [<] on keys is used, as [list.sort] does. *)
Fixpoint insert_by_key (x : Z * A) (l : list (Z * A)) : list (Z * A) :=
  match l with
  | [] => [x]
  | y :: rest =>
      if y.1 <? x.1 then y :: insert_by_key x rest else x :: y :: rest
  end.

(** [list.sort] is specified as a stable sort on the decorated keys; the
    result of a stable sort is unique, and insertion from the right
    computes it. *)
Definition stable_sort (l : list (Z * A)) : list (Z * A) :=
  foldr insert_by_key [] l.

(** [l.sort(key=key)]: every key is computed first (and may raise), then
    the elements are rearranged. *)
Definition sort_by_key (key : A → result Z) (l : list A) : result (list A) :=
  ds ← decorate key l;
  Ok ((stable_sort ds).*2).
End stable_sort.

(** ** HTTP helper *)

(** What [requests.post] hands back: a status code and what [r.json()]
    would produce, the exception it raises on a body that is not JSON
    included.  Bodies that decode to something else than a list of objects
    are outside the model. *)
Record response := {
  status_code : Z;
  json : result (list dict);
}.

(** The network: URL, JSON payload and timeout to a response, or an
    exception raised by [requests.post] itself. *)
Definition network := string → dict → Q → result response.

(** [base_url.rstrip("/")] *)
Fixpoint rstrip_slash (s : string) : string :=
  match s with
  | EmptyString => EmptyString
  | String c rest =>
      match rstrip_slash rest with
      | EmptyString => if Ascii.eqb c "/"%char then EmptyString else String c EmptyString
      | r => String c r
      end
  end.

(** [post]: the path is appended to the base URL without its trailing
    slashes. *)
Definition post (net : network) (base_url path : string) (payload : dict)
    (timeout : Q) : result response :=
  let url := rstrip_slash base_url +:+ path in
  net url payload timeout.

(** [r.raise_for_status()]: client and server error codes raise [HTTPError]. *)
Definition raise_for_status (r : response) : result unit :=
  if (400 <=? status_code r) && (status_code r <? 600)
  then Raise RequestException else Ok ().

(** ** [get_availability] *)

(** Truth value of an [Optional[str]]. *)
Definition truthy (o : option string) : bool :=
  match o with
  | Some (String _ _) => true
  | _ => false
  end.

(** The request body built at the top of [get_availability]. *)
Definition availability_payload (token for_date recorrido : string)
    (players : Z) (filtro_hora : option string) : dict :=
  let payload : dict :=
    <["FiltroHora" := VStr "08:00"]>
    (<["FiltroJugadores" := VInt players]>
    (<["FiltroRecorrido" := VStr recorrido]>
    (<["FiltroFecha" := VStr for_date]>
    (<["Token" := VStr token]> ∅)))) in
  match filtro_hora with
  | Some s => if truthy filtro_hora then <["FiltroHora" := VStr s]> payload else payload
  | None => payload
  end.

(** [x.get("NumeroJugadoresMaximo", 4)] *)
Definition max_players (x : dict) : value :=
  default (VInt 4) (x !! "NumeroJugadoresMaximo").

(** The number a value stands for in a comparison with an [int]
    ([bool] is a subclass of [int]); other values do not compare. *)
Definition as_number (v : value) : option Q :=
  match v with
  | VInt n => Some (inject_Z n)
  | VBool b => Some (inject_Z (if b then 1 else 0))
  | VFloat q => Some q
  | _ => None
  end.

(** [v >= p] for an [int] [p]. *)
Definition ge_int (v : value) (p : Z) : result bool :=
  match as_number v with
  | Some q => Ok (Qle_bool (inject_Z p) q)
  | None => Raise TypeError
  end.

(** What [get_availability] does with the decoded body: keep the slots with
    room for the party, then sort by time of day. *)
Definition filter_and_sort (players : Z) (data : list dict) : result (list dict) :=
  avails ← filter_r (fun x => ge_int (max_players x) players) data;
  sort_by_key hora_minutes avails.

(** [get_availability]: [players] is an [int] already, so [int(players)]
    is [players]; the [print] of the payload has no part in the result. *)
Definition get_availability (net : network) (base_url token for_date recorrido : string)
    (players : Z) (filtro_hora : option string) (timeout : Q) : result (list dict) :=
  let payload := availability_payload token for_date recorrido players filtro_hora in
  r ← post net base_url "/api/GolfHorasLeer" payload timeout;
  _ ← raise_for_status r;
  data ← json r;
  filter_and_sort players data.

(** ** [pick_slot] *)

(** [to_minutes(target_time)] on an [Optional[str]]. *)
Definition to_minutes_opt (o : option string) : result Z :=
  match o with
  | Some s => to_minutes s
  | None => Raise AttributeError
  end.

(** [pick_slot]: the empty list first, then "earliest" or a missing target,
    then "closest"; any other mode is a [ValueError]. *)
Definition pick_slot (avails : list dict) (mode : string)
    (target_time : option string) : result (option dict) :=
  match avails with
  | [] => Ok None
  | first :: _ =>
      if String.eqb mode "earliest" || negb (truthy target_time) then
        Ok (Some first)
      else if String.eqb mode "closest" then
        t0 ← to_minutes_opt target_time;
        candidates ← filter_r (fun a => m ← hora_minutes a; Ok (t0 <=? m)) avails;
        Ok (head candidates)
      else Raise ValueError
  end.

(** A slot as the service reports it. *)
Definition mk_slot (fecha hora recorrido : string) (maxp : Z) : dict :=
  <["NumeroJugadoresMaximo" := VInt maxp]>
  (<["Recorrido" := VStr recorrido]>
  (<["Hora" := VStr hora]>
  (<["Fecha" := VStr fecha]> ∅))).

Definition slot_1000 := mk_slot "2025-05-01" "10:00" "18 HOYOS" 4.
Definition slot_0930 := mk_slot "2025-05-01" "09:30" "18 HOYOS" 2.
Definition slot_0800 := mk_slot "2025-05-01" "08:00" "18 HOYOS" 2.

(** ** The polling loop and its world *)

(** One visit to the booking service: how the network behaves at that
    moment and how long the whole [get_availability] call takes. *)
Record visit := {
  service : network;
  elapsed : Q;
}.

(** The arguments of [poll_for_slot]. *)
Record call := {
  base_url : string;
  token : string;
  the_date : string;
  recorrido : string;
  players : Z;
  filtro_hora : option string;
  mode : string;
  target_time : option string;
  poll_every : Q;
  max_wait_seconds : Q;
  timeout : Q;
}.

(** The locals of the loop together with the clock [time.time()] reads.
    Times and durations are exact rationals, in seconds. *)
Record loop_state := {
  now : Q;
  backoff : Q;
  last_avails : list dict;
}.

(** What the loop does to the outside, with the instant it starts. *)
Inductive event :=
  | Query (at_ : Q) (r : result (list dict))
  | BackoffSleep (at_ d : Q)
  | PollSleep (at_ d : Q).

(** One pass through the body of [while True]. *)
Inductive step :=
  | Continue (st : loop_state)
  | Done (at_ : Q) (r : result (option dict * list dict)).

(** [time.sleep(d)]: a negative duration is a [ValueError]; otherwise the
    clock moves on by [d].  Durations beyond [sleep_max], which
    [time.sleep] refuses, are outside the model. *)
Definition sleep (d : Q) (t : Q) : result Q :=
  if Qle_bool 0 d then Ok (t + d)%Q else Raise ValueError.

(** The longest sleep [time.sleep] accepts: what fits 64 bits of
    nanoseconds. *)
Definition sleep_max : Q := 9223372036854775807 # 1000000000.

(** [min(a, b)] on two floats: [b] only when it is strictly smaller. *)
Definition py_min (a b : Q) : Q := if Qle_bool a b then a else b.

(** [min(2.0 if backoff == 0.0 else backoff * 2.0, 8.0)] *)
Definition next_backoff (b : Q) : Q :=
  py_min (if Qeq_bool b 0 then 2 else b * 2)%Q 8%Q.

(** The tail of the loop body: the deadline test, then the poll sleep. *)
Definition after_try (c : call) (deadline : Q) (st : loop_state)
    (evs : list event) : step * list event :=
  if Qle_bool deadline (now st) then
    (Done (now st) (Ok (None, last_avails st)), evs)
  else
    match sleep (poll_every c) (now st) with
    | Raise e => (Done (now st) (Raise e), evs)
    | Ok t =>
        (Continue {| now := t; backoff := backoff st; last_avails := last_avails st |},
         evs ++ [PollSleep (now st) (poll_every c)])
    end.

Definition loop_body (c : call) (deadline : Q) (v : visit) (st : loop_state)
    : step * list event :=
  let r := get_availability (service v) (base_url c) (token c) (the_date c)
             (recorrido c) (players c) (filtro_hora c) (timeout c) in
  let t1 := (now st + elapsed v)%Q in
  let q := Query (now st) r in
  match r with
  | Ok avails =>
      match pick_slot avails (mode c) (target_time c) with
      | Ok (Some pick) => (Done t1 (Ok (Some pick, avails)), [q])
      | Ok None =>
          after_try c deadline
            {| now := t1; backoff := backoff st; last_avails := avails |} [q]
      | Raise e => (Done t1 (Raise e), [q])
      end
  | Raise RequestException =>
      let b := next_backoff (backoff st) in
      match sleep b t1 with
      | Ok t2 =>
          after_try c deadline
            {| now := t2; backoff := b; last_avails := last_avails st |}
            [q; BackoffSleep t1 b]
      | Raise e => (Done t1 (Raise e), [q])
      end
  | Raise e => (Done t1 (Raise e), [q])
  end.

(** How a call ends: it returned or raised at some instant, or the script
    of visits ran out while it was still polling. *)
Inductive outcome :=
  | Finished (at_ : Q) (r : result (option dict * list dict))
  | Polling (st : loop_state).

(** The [while True] loop against the visits the world has in store. *)
Fixpoint poll_loop (c : call) (deadline : Q) (script : list visit)
    (st : loop_state) : outcome * list event :=
  match script with
  | [] => (Polling st, [])
  | v :: rest =>
      match loop_body c deadline v st with
      | (Continue st', evs) =>
          let '(o, evs') := poll_loop c deadline rest st' in (o, evs ++ evs')
      | (Done t r, evs) => (Finished t r, evs)
      end
  end.

Definition initial_state (start : Q) : loop_state :=
  {| now := start; backoff := 0; last_avails := [] |}.

(** [poll_for_slot] entered when the clock reads [start]. *)
Definition poll_for_slot (c : call) (start : Q) (script : list visit)
    : outcome * list event :=
  let deadline := (start + max_wait_seconds c)%Q in
  poll_loop c deadline script (initial_state start).

(** *** Reading a trace *)

Definition backoff_sleeps (tr : list event) : list Q :=
  omap (fun e => match e with BackoffSleep _ d => Some d | _ => None end) tr.

(** What is held as [last_avails] once event [e] has happened. *)
Definition observe (acc : list dict) (e : event) : list dict :=
  match e with
  | Query _ (Ok a) => a
  | _ => acc
  end.

(** The slot set of the most recent successful query, [[]] if there is none. *)
Definition last_observed (tr : list event) : list dict := foldl observe [] tr.

(** *** Sample worlds *)

Definition net_down : network := fun _ _ _ => Raise RequestException.
Definition net_serving (data : list dict) : network :=
  fun _ _ _ => Ok {| status_code := 200; json := Ok data |}.

Definition sample_call (m : string) (target : option string) (poll wait : Q) : call :=
  {| base_url := "https://rcgs.abiz.es:8228"; token := "secret";
     the_date := "2025-05-01"; recorrido := "18 HOYOS"; players := 2;
     filtro_hora := None; mode := m; target_time := target;
     poll_every := poll; max_wait_seconds := wait; timeout := 5 |}.

Definition down (d : Q) : visit := {| service := net_down; elapsed := d |}.
Definition serving (data : list dict) (d : Q) : visit :=
  {| service := net_serving data; elapsed := d |}.

(** * Vocabulary of the properties *)

(** ** Time of day and sorted slot sets *)

(** [a] has a well-formed ["Hora"] that reads as minute [k] of the day. *)
Definition time_is (a : dict) (k : Z) : Prop := hora_minutes a = Ok k.

(** Sorted non-decreasing by time of day (every time parses). *)
Definition sorted_by_time (S : list dict) : Prop :=
  ∃ ks, Forall2 time_is S ks ∧ Sorted Z.le ks.

(** The test of the ["closest"] comprehension, as a total function. *)
Definition at_or_after (t : Z) (a : dict) : bool :=
  match hora_minutes a with
  | Ok m => t <=? m
  | Raise _ => false
  end.

(** What a raising condition keeps when it does not raise. *)
Definition holds {A} (f : A → result bool) (x : A) : bool :=
  match f x with
  | Ok b => b
  | Raise _ => false
  end.

(** ** Capacity and equal times *)

(** The capacity test of the comprehension, as a total function. *)
Definition fits (p : Z) : dict → bool :=
  holds (λ x, ge_int (max_players x) p).

(** Slots whose time of day reads as minute [k]. *)
Definition time_eqb (k : Z) (a : dict) : bool :=
  match hora_minutes a with
  | Ok m => m =? k
  | Raise _ => false
  end.

Definition slot_0930_b := mk_slot "2025-05-01" "09:30" "9 HOYOS" 3.
Definition slot_0700_solo := mk_slot "2025-05-01" "07:00" "18 HOYOS" 1.

(** ** Reading the loop *)

(** The query of this visit, as the loop makes it. *)
Definition query (c : call) (v : visit) : result (list dict) :=
  get_availability (service v) (base_url c) (token c) (the_date c)
    (recorrido c) (players c) (filtro_hora c) (timeout c).

(** The backoff value once [k] transient failures have been handled:
    0, 2, 4, 8, 8, ... *)
Definition backoff_after (k : nat) : Q :=
  match k with
  | 0%nat => 0
  | 1%nat => 2
  | 2%nat => 4
  | _ => 8
  end.

(** ** The backoff schedule *)

(** The instants of the queries that failed transiently. *)
Definition failed_queries (tr : list event) : list Q :=
  omap (fun e => match e with
                 | Query t (Raise RequestException) => Some t
                 | _ => None
                 end) tr.

(** The backoff sleeps of a trace, cut into runs at every successful
    query: one list per stretch of consecutive failures. *)
Fixpoint failure_runs (cur : list Q) (tr : list event) : list (list Q) :=
  match tr with
  | [] => [cur]
  | BackoffSleep _ d :: rest => failure_runs (cur ++ [d]) rest
  | Query _ (Ok _) :: rest => cur :: failure_runs [] rest
  | _ :: rest => failure_runs cur rest
  end.

(** The [n] backoff values slept once [k] failures have already been
    handled; from [k = 0] this is 2, 4, 8, 8, ... *)
Definition backoffs_from (k n : nat) : list Q := backoff_after <$> seq (S k) n.

(** A success directly followed, after the poll sleep, by a transient
    failure that sleeps [d]. *)
Definition failure_after_success (tr : list event) (d : Q) : Prop :=
  ∃ pre post t1 a t2 p t3 t4,
    tr = pre ++ [Query t1 (Ok a); PollSleep t2 p;
                 Query t3 (Raise RequestException); BackoffSleep t4 d] ++ post.

(** A polling call used in the examples: poll every second, for three
    minutes at most. *)
Definition retry_call : call := sample_call "earliest" None 1 180.

(** What C7 says of a trace: every stretch of consecutive failures sleeps
    2, 4, 8, 8, ... from its first failure on. *)
Definition runs_restart (tr : list event) : Prop :=
  ∀ run, run ∈ failure_runs [] tr → run = backoffs_from 0 (length run).

(** ** Quiet worlds *)

(** A visit that neither yields a slot nor breaks the loop: the query
    fails transiently, or succeeds and nothing is selected. *)
Definition quiet (c : call) (v : visit) : Prop :=
  query c v = Raise RequestException ∨
  ∃ avails, query c v = Ok avails ∧
            pick_slot avails (mode c) (target_time c) = Ok None.

(** The time a script of visits takes at the very least: its queries and
    the poll sleeps between them. *)
Fixpoint quiet_span (poll : Q) (script : list visit) : Q :=
  match script with
  | [] => 0
  | v :: rest =>
      elapsed v + match rest with
                  | [] => 0
                  | _ :: _ => poll + quiet_span poll rest
                  end
  end.

(** The answers the queries of a trace got, in order. *)
Definition answers (tr : list event) : list (result (list dict)) :=
  omap (fun e => match e with Query _ r => Some r | _ => None end) tr.

(** What is held as [last_avails] once a query has been answered. *)
Definition keep_answer (acc : list dict) (r : result (list dict)) : list dict :=
  match r with
  | Ok a => a
  | Raise _ => acc
  end.

(** The slot set of the last answer that is no exception, [[]] if there
    is none. *)
Definition last_answer (rs : list (result (list dict))) : list dict :=
  foldl keep_answer [] rs.

(** An answer that neither yields a slot nor breaks the loop. *)
Definition quiet_answer (c : call) (r : result (list dict)) : Prop :=
  r = Raise RequestException ∨
  ∃ a, r = Ok a ∧ pick_slot a (mode c) (target_time c) = Ok None.

(** What C5 supposes of a call: every query that starts before the
    deadline gets a quiet answer. *)
Definition quiet_within (c : call) (deadline : Q) (tr : list event) : Prop :=
  ∀ t r, Query t r ∈ tr → (t < deadline)%Q → quiet_answer c r.

(** ** The deadline *)

(** The instant at which the loop starts a query or a sleep. *)
Definition begins (e : event) : Q :=
  match e with
  | Query t _ | BackoffSleep t _ | PollSleep t _ => t
  end.

(** What C4 says of a trace: once the first query is out, no query and no
    sleep begins at or past the deadline. *)
Definition within_deadline (deadline : Q) (tr : list event) : Prop :=
  Forall (λ e, (begins e < deadline)%Q) (tail tr).

(** A call that waits one second at most and polls every five. *)
Definition slow_call : call := sample_call "earliest" None 5 1.

(** * The rest of the program *)

(** ** [reserve] *)

(** The status codes [raise_for_status] turns into an [HTTPError]. *)
Definition http_error (code : Z) : bool := (400 <=? code) && (code <? 600).

(** What [requests.post] hands back from the reservation endpoint: the
    body decodes to one object (["CodigoReserva"] and the like). *)
Record commit_response := {
  commit_status : Z;
  commit_json : result dict;
}.

Definition commit_network := string → dict → Q → result commit_response.

(** [post] towards the reservation endpoint. *)
Definition post_commit (net : commit_network) (base_url path : string)
    (payload : dict) (timeout : Q) : result commit_response :=
  let url := rstrip_slash base_url +:+ path in
  net url payload timeout.

(** The request body of [reserve].  The date, time and course are whatever
    objects the caller passes. *)
Definition reserve_payload (token : string) (fecha hora recorrido : value)
    (players : Z) : dict :=
  <["Recorrido" := recorrido]>
  (<["Hora" := hora]>
  (<["Fecha" := fecha]>
  (<["NumeroJugadores" := VInt players]>
  (<["Token" := VStr token]> ∅)))).

Definition reserve (net : commit_network) (base_url token : string)
    (fecha hora recorrido : value) (players : Z) (timeout : Q) : result dict :=
  let payload := reserve_payload token fecha hora recorrido players in
  r ← post_commit net base_url "/api/GolfReservaAlta" payload timeout;
  _ ← (if http_error (commit_status r) then Raise RequestException else Ok ());
  commit_json r.

(** ** [sleep_until] *)

(** The loop of [sleep_until] on the wall clock of the target's zone, with
    a bound on the number of passes: the clock when it returns and the
    sleeps it made.  [time.sleep] moves the wall clock by what it is
    asked. *)
Fixpoint sleep_until_loop (fuel : nat) (target wall : Q) : option (Q * list Q) :=
  match fuel with
  | O => None
  | S n =>
      let delta := (target - wall)%Q in
      if Qle_bool delta 0 then Some (wall, [])
      else
        let d := py_min delta (1 # 2) in
        match sleep_until_loop n target (wall + d)%Q with
        | Some (w, ds) => Some (w, d :: ds)
        | None => None
        end
  end.

(** Passes that are always enough: one per half second to go, and one. *)
Definition sleep_until_passes (target wall : Q) : nat :=
  S (Z.to_nat (Qceiling (2 * (target - wall)))).


(** The same loop when the wall clock of the zone is read off
    [time.time()] through [wall_of], which need not move evenly: the value
    of [time.time()] when it returns and the sleeps it made. *)
Fixpoint sleep_until_zone (fuel : nat) (wall_of : Q → Q) (target clock : Q)
    : option (Q * list Q) :=
  match fuel with
  | O => None
  | S n =>
      let delta := (target - wall_of clock)%Q in
      if Qle_bool delta 0 then Some (clock, [])
      else
        let d := py_min delta (1 # 2) in
        match sleep_until_zone n wall_of target (clock + d)%Q with
        | Some (c, ds) => Some (c, d :: ds)
        | None => None
        end
  end.

(** ** [main] *)

(** The parsed command line. *)
Record args := {
  arg_base_url : string;
  arg_token : option string;
  arg_date : string;
  arg_recorrido : string;
  arg_players : Z;
  arg_mode : string;
  arg_target_time : option string;
  arg_filtro_hora : option string;
  arg_dry_run : bool;
  arg_wait_until : option string;
  arg_tz : string;
  arg_poll_every : Q;
  arg_max_wait : Q;
  arg_timeout : Q;
}.

(** What [main] meets outside: the environment variable, the time zone
    database (a zone gives, for every value of [time.time()], the offset in
    seconds of its wall clock; the offset may change, as it does when
    summer time begins or ends), the clock at entry, the number of passes
    of [sleep_until] the world has time for, the availability service and
    the reservation service. *)
Record world := {
  environ_token : option string;
  zone : string → result (Q → Q);
  clock : Q;
  patience : nat;
  visits : list visit;
  booking : commit_network;
}.

(** How the process ends: an exit status, an uncaught exception, or still
    running when the world's script is over. *)
Inductive exit :=
  | Exit (code : Z)
  | Uncaught (e : exn)
  | StillRunning.

(** [a or b] on two [Optional[str]]. *)
Definition py_or (a b : option string) : option string :=
  if truthy a then a else b.

(** [hh, mm = map(int, s.split(":"))] *)
Definition parse_hhmm (s : string) : result (Z * Z) :=
  match split_colon s with
  | [a; b] =>
      h ← py_int a;
      m ← py_int b;
      Ok (h, m)
  | _ => Raise ValueError
  end.

(** [datetime.replace] takes its fields as C [int]s. *)
Definition fits_c_int (n : Z) : bool :=
  (-2147483648 <=? n) && (n <=? 2147483647).

(** [now.replace(hour=hh, minute=mm, second=0, microsecond=0)] on a wall
    clock counted in seconds, a day being 86400 of them: the same day at
    the given time; an [OverflowError] when the hour or the minute does
    not fit a C [int], a [ValueError] when it fits but is out of range. *)
Definition replace_time (wall : Q) (hh mm : Z) : result Z :=
  if negb (fits_c_int hh && fits_c_int mm) then Raise OverflowError
  else if (0 <=? hh) && (hh <=? 23) && (0 <=? mm) && (mm <=? 59)
  then Ok (86400 * Qfloor (wall / 86400) + 3600 * hh + 60 * mm)
  else Raise ValueError.

(** The instant [main] waits for: today at [hh:mm], tomorrow if that is
    not after now. *)
Definition wait_target (wall : Q) (wait_until : string) : result Z :=
  hm ← parse_hhmm wait_until;
  target ← replace_time wall hm.1 hm.2;
  Ok (if Qle_bool (inject_Z target) wall then target + 86400 else target).

(** The optional wait at the top of [main]: the value of [time.time()]
    once it is over, [None] if the world ends before. *)
Definition start_gate (w : world) (a : args) : result (option Q) :=
  match arg_wait_until a with
  | Some s =>
      if truthy (Some s) then
        off ← zone w (arg_tz a);
        let wall_of := fun t => (t + off t)%Q in
        target ← wait_target (wall_of (clock w)) s;
        Ok (match sleep_until_zone (patience w) wall_of (inject_Z target) (clock w) with
            | Some (start, _) => Some start
            | None => None
            end)
      else Ok (Some (clock w))
  | None => Ok (Some (clock w))
  end.

Definition call_of_args (tok : string) (a : args) : call :=
  {| base_url := arg_base_url a; token := tok; the_date := arg_date a;
     recorrido := arg_recorrido a; players := arg_players a;
     filtro_hora := arg_filtro_hora a; mode := arg_mode a;
     target_time := arg_target_time a; poll_every := arg_poll_every a;
     max_wait_seconds := arg_max_wait a; timeout := arg_timeout a |}.

(** [d[k]] *)
Definition getitem (d : dict) (k : string) : result value :=
  match d !! k with
  | Some v => Ok v
  | None => Raise KeyError
  end.

(** Truth value of what [poll_for_slot] returns as pick: [None] and the
    empty [dict] are false. *)
Definition pick_truthy (pick : option dict) : bool :=
  match pick with
  | Some d => negb (Nat.eqb (size d) 0)
  | None => false
  end.

(** The reservation attempt at the end of [main]. *)
Definition book (w : world) (a : args) (tok : string) (pick : dict) : exit :=
  let attempt :=
    fecha ← getitem pick "Fecha";
    hora ← getitem pick "Hora";
    rec ← getitem pick "Recorrido";
    reserve (booking w) (arg_base_url a) tok fecha hora rec
      (arg_players a) (arg_timeout a) in
  match attempt with
  | Ok _ => Exit 0
  | Raise RequestException => Exit 3
  | Raise e => Uncaught e
  end.

(** [main] from the point where [parse_args] has returned [a]. *)
Definition main (w : world) (a : args) : exit :=
  let token := py_or (arg_token a) (environ_token w) in
  match token with
  | Some (String c0 rest0) =>
      let tok := String c0 rest0 in
      match start_gate w a with
      | Raise e => Uncaught e
      | Ok None => StillRunning
      | Ok (Some start) =>
          match (poll_for_slot (call_of_args tok a) start (visits w)).1 with
          | Polling _ => StillRunning
          | Finished _ (Raise e) => Uncaught e
          | Finished _ (Ok (pick, avails)) =>
              match pick with
              | Some p =>
                  if pick_truthy pick then
                    if arg_dry_run a then Exit 0 else book w a tok p
                  else Exit 1
              | None => Exit 1
              end
          end
      end
  | _ => Exit 2
  end.



(** The same world with another reservation service. *)
Definition with_booking (b : commit_network) (w : world) : world :=
  {| environ_token := environ_token w; zone := zone w; clock := clock w;
     patience := patience w; visits := visits w; booking := b |}.

(** ** More vocabulary *)

(** [":".join(parts)] *)
Fixpoint join_colon (parts : list string) : string :=
  match parts with
  | [] => EmptyString
  | [a] => a
  | a :: rest => a +:+ String ":"%char (join_colon rest)
  end.

Fixpoint count_colons (s : string) : nat :=
  match s with
  | EmptyString => 0
  | String c rest => (if Ascii.eqb c ":"%char then 1 else 0) + count_colons rest
  end.

(** [n] as two decimal digits, for [0 <= n < 100]. *)
Definition two_digits (n : Z) : string :=
  String (ascii_of_N (Z.to_N (48 + n / 10)))
    (String (ascii_of_N (Z.to_N (48 + n mod 10))) EmptyString).

(** A time of day as the service writes it: ["HH:MM"]. *)
Definition hhmm (h m : Z) : string :=
  two_digits h +:+ String ":"%char (two_digits m).

(** [n] slashes. *)
Fixpoint slashes (n : nat) : string :=
  match n with
  | O => EmptyString
  | S k => String "/"%char (slashes k)
  end.

Definition is_query (e : event) : bool :=
  match e with Query _ _ => true | _ => false end.

Definition is_poll_sleep (e : event) : bool :=
  match e with PollSleep _ _ => true | _ => false end.

(** A service that answers with status [code] and body [body]. *)
Definition net_replying (code : Z) (body : result (list dict)) : network :=
  fun _ _ _ => Ok {| status_code := code; json := body |}.


(** A slot for one player that names no time. *)
Definition slot_no_time : dict := <["NumeroJugadoresMaximo" := VInt 1]> ∅.

(** A visit that is answered with 401. *)
Definition unauthorized : visit :=
  {| service := net_replying 401 (Raise RequestException); elapsed := 0 |}.

(** A slot for four players that names no time. *)
Definition slot_vague : dict := <["NumeroJugadoresMaximo" := VInt 4]> ∅.

(** A visit that is answered with a slot without a time. *)
Definition garbled : visit :=
  {| service := net_replying 200 (Ok [slot_vague]); elapsed := 1 |}.

(** Command lines for the samples. *)
Definition sample_args_for (wait : Q) (tok : option string) (dry : bool) : args :=
  {| arg_base_url := "https://rcgs.abiz.es:8228"; arg_token := tok;
     arg_date := "2025-05-01"; arg_recorrido := "18 HOYOS"; arg_players := 2;
     arg_mode := "earliest"; arg_target_time := None; arg_filtro_hora := None;
     arg_dry_run := dry; arg_wait_until := None; arg_tz := "Europe/Madrid";
     arg_poll_every := 1 # 4; arg_max_wait := wait; arg_timeout := 5 |}.

Definition sample_args : option string → bool → args := sample_args_for 180.

(** A reservation service that answers with status [code]. *)
Definition booking_replying (code : Z) : commit_network :=
  fun _ _ _ => Ok {| commit_status := code;
                     commit_json := Ok (<["CodigoReserva" := VInt 7]> ∅) |}.

(** A world in which the first query finds [data]. *)
Definition sample_world (env : option string) (data : list dict)
    (b : commit_network) : world :=
  {| environ_token := env; zone := fun _ => Ok (fun _ => 7200%Q); clock := 0;
     patience := 4; visits := [serving data 1]; booking := b |}.

(** A world entered half a second before 03:00 on the wall clock of its
    zone, and a command line that waits for 03:00. *)
Definition waiting_world : world :=
  {| environ_token := None; zone := fun _ => Ok (fun _ => 7200%Q);
     clock := 7199 # 2; patience := 4; visits := [];
     booking := booking_replying 200 |}.

Definition waiting_args : args :=
  {| arg_base_url := "https://rcgs.abiz.es:8228"; arg_token := Some "secret";
     arg_date := "2025-05-01"; arg_recorrido := "18 HOYOS"; arg_players := 2;
     arg_mode := "earliest"; arg_target_time := None; arg_filtro_hora := None;
     arg_dry_run := true; arg_wait_until := Some "03:00";
     arg_tz := "Europe/Madrid"; arg_poll_every := 1 # 4; arg_max_wait := 180;
     arg_timeout := 5 |}.

(** A slot that has a time and room but no date. *)
Definition slot_undated : dict :=
  <["NumeroJugadoresMaximo" := VInt 4]> (<["Hora" := VStr "09:30"]> ∅).

(** * Examples *)

Example to_minutes_0930 : to_minutes "09:30" = Ok 570.
Proof. reflexivity. Qed.
Example to_minutes_spaces : to_minutes " 9 :+5" = Ok 545.
Proof. reflexivity. Qed.
Example to_minutes_three : to_minutes "09:30:00" = Raise ValueError.
Proof. reflexivity. Qed.
Example to_minutes_empty : to_minutes EmptyString = Raise ValueError.
Proof. reflexivity. Qed.

Example scenario_sort :
  filter_and_sort 2 [slot_1000; slot_0930] = Ok [slot_0930; slot_1000].
Proof. vm_compute. reflexivity. Qed.

Example scenario_A :
  pick_slot [slot_0930; slot_1000] "earliest" None = Ok (Some slot_0930).
Proof. reflexivity. Qed.

Example scenario_B :
  pick_slot [slot_0930; slot_1000] "closest" (Some "09:45") = Ok (Some slot_1000).
Proof. vm_compute. reflexivity. Qed.

Example scenario_C :
  pick_slot [slot_0800] "closest" (Some "09:00") = Ok None.
Proof. vm_compute. reflexivity. Qed.

Example scenario_D :
  let '(o, tr) := poll_for_slot (sample_call "earliest" None 1 180) 0
                    [down 1; down 1; down 1; serving [slot_0930] 1] in
  o = Finished 21 (Ok (Some slot_0930, [slot_0930])) ∧
  backoff_sleeps tr = [2; 4; 8]%Q.
Proof. vm_compute. split; reflexivity. Qed.

(** * Properties *)

(** ** Lists, filters and sorted slot sets *)

Lemma time_is_inj a k k' : time_is a k → time_is a k' → k = k'.
Proof. unfold time_is. congruence. Qed.

Lemma filter_r_Ok {A} (f : A → result bool) l l' :
  filter_r f l = Ok l' →
  Forall (λ x, ∃ b, f x = Ok b) l ∧ l' = List.filter (holds f) l.
Proof.
  revert l'. induction l as [|x l IH]; simpl; intros l' H.
  - inversion H. split; [constructor | reflexivity].
  - unfold mbind, result_bind in H. unfold holds at 1.
    destruct (f x) as [b|e] eqn:Hx; [|discriminate].
    destruct (filter_r f l) as [kept|e] eqn:Hl; [|discriminate].
    destruct (IH kept eq_refl) as [Hall ->].
    inversion H; subst. split; [constructor; eauto | destruct b; reflexivity].
Qed.

Lemma filter_r_total {A} (f : A → result bool) l :
  Forall (λ x, ∃ b, f x = Ok b) l →
  filter_r f l = Ok (List.filter (holds f) l).
Proof.
  induction 1 as [|x l [b Hx] _ IH]; simpl; [reflexivity|].
  unfold mbind, result_bind, holds at 1. rewrite Hx, IH. destruct b; reflexivity.
Qed.

Lemma head_filter_None {A} (g : A → bool) l :
  head (List.filter g l) = None ↔ ∀ a, a ∈ l → g a = false.
Proof.
  induction l as [|x l IH]; simpl.
  - split; [intros _ a Ha; inversion Ha | reflexivity].
  - destruct (g x) eqn:Hx; simpl.
    + split; [discriminate|]. intros H. specialize (H x (list_elem_of_here _ _)). congruence.
    + rewrite IH. split.
      * intros H a Ha. apply elem_of_cons in Ha as [->|Ha]; auto.
      * intros H a Ha. apply H. by apply list_elem_of_further.
Qed.

Lemma head_filter_Some {A} (g : A → bool) l p :
  head (List.filter g l) = Some p →
  ∃ l1 l2, l = l1 ++ p :: l2 ∧ Forall (λ a, g a = false) l1 ∧ g p = true.
Proof.
  induction l as [|x l IH]; simpl; [discriminate|].
  destruct (g x) eqn:Hx; simpl.
  - intros [= ->]. exists [], l. repeat split; [constructor | assumption].
  - intros H. destruct (IH H) as (l1 & l2 & -> & Hl1 & Hp).
    exists (x :: l1), l2. repeat split; [constructor; assumption | assumption].
Qed.

Lemma sorted_by_time_later l1 p l2 kp a k :
  sorted_by_time (l1 ++ p :: l2) → time_is p kp → a ∈ l2 → time_is a k → kp ≤ k.
Proof.
  intros (ks & Hks & Hsorted) Hp Ha Hk.
  apply Sorted_StronglySorted in Hsorted; [|intros ???; lia].
  apply Forall2_app_inv_l in Hks as (ks1 & ks2 & _ & Hks2 & ->).
  apply StronglySorted_app_1_r in Hsorted.
  inversion Hks2 as [|? kp' ? ks2' Hp' Hl2]; subst.
  rewrite (time_is_inj _ _ _ Hp Hp').
  apply StronglySorted_cons in Hsorted as [Hle _].
  apply list_elem_of_lookup in Ha as [i Hi].
  destruct (Forall2_lookup_l _ _ _ _ _ Hl2 Hi) as (k' & Hk' & Hak').
  rewrite (time_is_inj _ _ _ Hk Hak').
  rewrite Forall_forall in Hle. apply Hle. by eapply list_elem_of_lookup_2.
Qed.

Lemma to_minutes_nonempty s t : to_minutes s = Ok t → truthy (Some s) = true.
Proof. destruct s; [discriminate | reflexivity]. Qed.

(** With every time readable and a readable target, ["closest"] is the
    first slot that passes [at_or_after]. *)
Lemma pick_slot_closest_head S ks s t :
  Forall2 time_is S ks → to_minutes s = Ok t →
  pick_slot S "closest" (Some s) = Ok (head (List.filter (at_or_after t) S)).
Proof.
  intros Hks Ht. unfold pick_slot. destruct S as [|first rest]; [reflexivity|].
  rewrite (to_minutes_nonempty _ _ Ht). cbn [String.eqb Ascii.eqb Bool.eqb orb negb].
  cbn [to_minutes_opt]. rewrite Ht. cbn [mbind result_bind].
  rewrite filter_r_total.
  - cbn [mbind result_bind]. f_equal. f_equal. apply filter_ext. intros a.
    unfold holds, at_or_after. destruct (hora_minutes a); reflexivity.
  - clear -Hks. induction Hks as [|a k ? ? Ha _ IH]; constructor; [|exact IH].
    exists (t <=? k). unfold time_is in Ha. rewrite Ha. reflexivity.
Qed.

(** ** Slot selection *)

(** C6: the "earliest" policy returns [None] exactly on the empty list and
    otherwise the first element, which in a list sorted by time of day has
    the least time of day of the list. *)
Theorem pick_slot_earliest (S : list dict) (target : option string) :
  pick_slot S "earliest" target = Ok (head S) ∧
  (pick_slot S "earliest" target = Ok None ↔ S = []) ∧
  (∀ first, head S = Some first → sorted_by_time S →
     ∃ k0, time_is first k0 ∧ ∀ a k, a ∈ S → time_is a k → k0 ≤ k).
Proof.
  split; [by destruct S|]. split.
  - destruct S; simpl; split; congruence.
  - intros first Hhead Hsorted. destruct S as [|x rest]; [discriminate|].
    injection Hhead as ->.
    pose proof Hsorted as (ks & Hks & _).
    inversion Hks as [|? k0 ? ? Hfirst _]; subst.
    exists k0. split; [exact Hfirst|]. intros a k Ha Hk.
    apply elem_of_cons in Ha as [->|Ha].
    + rewrite (time_is_inj _ _ _ Hk Hfirst). lia.
    + by eapply (sorted_by_time_later [] first rest).
Qed.

Lemma pick_slot_earliest_witness :
  ∃ k0, time_is slot_0930 k0 ∧
    ∀ a k, a ∈ [slot_0930; slot_1000] → time_is a k → k0 ≤ k.
Proof.
  apply (proj2 (proj2 (pick_slot_earliest [slot_0930; slot_1000] None))).
  - reflexivity.
  - exists [570; 600]. split.
    + repeat constructor.
    + repeat constructor. lia.
Defined.

(** C2: with the target time supplied and the list sorted by time of day,
    the "closest" policy returns [None] exactly when no slot is at or after
    the target; otherwise it returns the first slot of the list at or after
    the target, whose time is the least among those, and never one before
    the target. *)
Theorem pick_slot_closest (S : list dict) (s : string) (t : Z) :
  to_minutes s = Ok t → sorted_by_time S →
  ∃ r, pick_slot S "closest" (Some s) = Ok r ∧
    (r = None ↔ ∀ a k, a ∈ S → time_is a k → k < t) ∧
    (∀ p, r = Some p →
       ∃ kp l1 l2, time_is p kp ∧ t ≤ kp ∧ S = l1 ++ p :: l2 ∧
         Forall (λ a, ∃ k, time_is a k ∧ k < t) l1 ∧
         ∀ a k, a ∈ S → time_is a k → t ≤ k → kp ≤ k).
Proof.
  intros Ht Hsorted. pose proof Hsorted as (ks & Hks & _).
  exists (head (List.filter (at_or_after t) S)).
  split; [by eapply pick_slot_closest_head|].
  assert (Hread : ∀ a, a ∈ S → ∃ k, time_is a k).
  { intros a Ha. apply list_elem_of_lookup in Ha as [i Hi].
    destruct (Forall2_lookup_l _ _ _ _ _ Hks Hi) as (k & _ & Hk). eauto. }
  split.
  - rewrite head_filter_None. split.
    + intros H a k Ha Hk. specialize (H a Ha). unfold at_or_after in H.
      unfold time_is in Hk. rewrite Hk in H. lia.
    + intros H a Ha. destruct (Hread a Ha) as [k Hk].
      specialize (H a k Ha Hk). unfold at_or_after. unfold time_is in Hk.
      rewrite Hk. lia.
  - intros p Hp. apply head_filter_Some in Hp as (l1 & l2 & -> & Hl1 & Hgp).
    destruct (Hread p) as [kp Hkp]; [set_solver|].
    assert (t ≤ kp) as Hle.
    { unfold at_or_after in Hgp. unfold time_is in Hkp. rewrite Hkp in Hgp. lia. }
    assert (Hbefore : Forall (λ a, ∃ k, time_is a k ∧ k < t) l1).
    { rewrite Forall_forall in Hl1 |- *. intros a Ha.
      destruct (Hread a) as [k Hk]; [set_solver|]. exists k. split; [exact Hk|].
      specialize (Hl1 a Ha). unfold at_or_after in Hl1. unfold time_is in Hk.
      rewrite Hk in Hl1. lia. }
    exists kp, l1, l2. repeat split; try assumption.
    intros a k Ha Hk Htk. apply elem_of_app in Ha as [Ha|Ha].
    + rewrite Forall_forall in Hbefore. destruct (Hbefore a Ha) as (k' & Hk' & Hlt).
      rewrite (time_is_inj _ _ _ Hk Hk') in Htk. lia.
    + apply elem_of_cons in Ha as [->|Ha].
      * rewrite (time_is_inj _ _ _ Hk Hkp). lia.
      * by eapply sorted_by_time_later.
Qed.

Lemma pick_slot_closest_witness :
  ∃ r, pick_slot [slot_0930; slot_1000] "closest" (Some "09:45") = Ok r ∧
    (r = None ↔ ∀ a k, a ∈ [slot_0930; slot_1000] → time_is a k → k < 585) ∧
    (∀ p, r = Some p →
       ∃ kp l1 l2, time_is p kp ∧ 585 ≤ kp ∧ [slot_0930; slot_1000] = l1 ++ p :: l2 ∧
         Forall (λ a, ∃ k, time_is a k ∧ k < 585) l1 ∧
         ∀ a k, a ∈ [slot_0930; slot_1000] → time_is a k → 585 ≤ k → kp ≤ k).
Proof.
  apply (pick_slot_closest [slot_0930; slot_1000] "09:45" 585).
  - reflexivity.
  - exists [570; 600]. split.
    + repeat constructor.
    + repeat constructor. lia.
Defined.

(** C10: without a target time the mode hardly matters.  On a non-empty
    list "closest" with no target returns the first element, as does any
    other mode; an unknown mode raises [ValueError] exactly when a target
    is supplied and the list is non-empty. *)
Theorem pick_slot_without_target (first : dict) (rest : list dict) :
  pick_slot (first :: rest) "closest" None = Ok (Some first) ∧
  ∀ m : string, m ≠ "earliest" → m ≠ "closest" →
    pick_slot (first :: rest) m None = Ok (Some first) ∧
    ∀ S target,
      pick_slot S m target = Raise ValueError ↔ truthy target = true ∧ S ≠ [].
Proof.
  split; [reflexivity|]. intros m Hm1 Hm2. split; [|intros S target].
  - unfold pick_slot. simpl truthy. by rewrite orb_true_r.
  - unfold pick_slot. destruct S as [|x S]; [split; [discriminate | intros [_ ?]; done]|].
    apply String.eqb_neq in Hm1, Hm2. rewrite Hm1, Hm2.
    destruct (truthy target); simpl; split; try done. intros [? _]; done.
Qed.

Lemma pick_slot_without_target_witness :
  pick_slot [slot_0930; slot_1000] "latest" None = Ok (Some slot_0930) ∧
  pick_slot [slot_0930; slot_1000] "latest" (Some "09:45") = Raise ValueError.
Proof.
  destruct (proj2 (pick_slot_without_target slot_0930 [slot_1000]) "latest")
    as [Hnone Hraise]; [discriminate | discriminate |].
  split; [exact Hnone|]. apply Hraise. split; [reflexivity | discriminate].
Defined.

(** ** The stable sort *)

Section stable_sort_facts.
Context {A : Type}.
Implicit Types (x y : Z * A) (l : list (Z * A)) (k : Z).

Lemma insert_by_key_perm x l : insert_by_key x l ≡ₚ x :: l.
Proof.
  induction l as [|y l IH]; simpl; [reflexivity|].
  destruct (y.1 <? x.1); [|reflexivity].
  rewrite IH. apply Permutation_swap.
Qed.

Lemma stable_sort_perm l : stable_sort l ≡ₚ l.
Proof.
  induction l as [|x l IH]; simpl; [reflexivity|].
  rewrite insert_by_key_perm. by constructor.
Qed.

Lemma insert_by_key_sorted x l :
  StronglySorted Z.le l.*1 → StronglySorted Z.le (insert_by_key x l).*1.
Proof.
  induction l as [|y l IH]; simpl; intros Hl.
  - repeat constructor.
  - apply StronglySorted_cons in Hl as [Hy Hl].
    destruct (y.1 <? x.1) eqn:Hlt; simpl; apply StronglySorted_cons.
    + split; [|by apply IH].
      rewrite (insert_by_key_perm x l). simpl. constructor; [lia | exact Hy].
    + split; [|by apply StronglySorted_cons].
      constructor; [lia|]. eapply Forall_impl; [exact Hy|]. simpl. lia.
Qed.

Lemma stable_sort_sorted l : StronglySorted Z.le (stable_sort l).*1.
Proof.
  induction l as [|x l IH]; simpl; [constructor | by apply insert_by_key_sorted].
Qed.

(** Elements with one key keep their relative order. *)
Lemma insert_by_key_filter k x l :
  List.filter (λ y, y.1 =? k) (insert_by_key x l)
  = List.filter (λ y, y.1 =? k) (x :: l).
Proof.
  induction l as [|y l IH]; [reflexivity|].
  cbn [insert_by_key]. destruct (y.1 <? x.1) eqn:Hlt; [|reflexivity].
  cbn [List.filter] in *. rewrite IH.
  destruct (y.1 =? k) eqn:Hy, (x.1 =? k) eqn:Hx; try reflexivity. lia.
Qed.

Lemma stable_sort_stable k l :
  List.filter (λ y, y.1 =? k) (stable_sort l) = List.filter (λ y, y.1 =? k) l.
Proof.
  induction l as [|x l IH]; [reflexivity|].
  cbn [stable_sort foldr]. rewrite insert_by_key_filter.
  cbn [List.filter]. fold (stable_sort l). by rewrite IH.
Qed.

(** Two arrangements that are sorted and agree key by key are equal. *)
Lemma sorted_stable_eq l1 l2 :
  StronglySorted Z.le l1.*1 → StronglySorted Z.le l2.*1 →
  (∀ k, List.filter (λ y, y.1 =? k) l1 = List.filter (λ y, y.1 =? k) l2) →
  l1 = l2.
Proof.
  assert (Hnotfirst : ∀ x y l l',
    StronglySorted Z.le (y :: l').*1 → x.1 < y.1 →
    List.filter (λ z, z.1 =? x.1) (x :: l) = List.filter (λ z, z.1 =? x.1) (y :: l') →
    False).
  { intros x y l l' Hs Hlt HF. cbn [List.filter] in HF.
    rewrite Z.eqb_refl in HF. replace (y.1 =? x.1) with false in HF by lia.
    assert (In x (List.filter (λ z, z.1 =? x.1) l')) as Hin by (rewrite <- HF; by left).
    apply filter_In in Hin as [Hin _]. apply list_elem_of_In in Hin.
    apply StronglySorted_cons in Hs as [Hle _]. rewrite Forall_forall in Hle.
    specialize (Hle x.1 (list_elem_of_fmap_2 fst _ _ Hin)). lia. }
  revert l2. induction l1 as [|x l1 IH]; intros l2 H1 H2 HF.
  - destruct l2 as [|y l2]; [reflexivity|].
    specialize (HF y.1). cbn [List.filter] in HF. rewrite Z.eqb_refl in HF. discriminate.
  - destruct l2 as [|y l2].
    { specialize (HF x.1). cbn [List.filter] in HF. rewrite Z.eqb_refl in HF. discriminate. }
    assert (x = y) as <-.
    { destruct (Z.lt_trichotomy x.1 y.1) as [Hlt|[Heq|Hgt]].
      - exfalso. by eapply (Hnotfirst x y l1 l2).
      - specialize (HF x.1). cbn [List.filter] in HF.
        rewrite <- Heq, Z.eqb_refl in HF. congruence.
      - exfalso. by eapply (Hnotfirst y x l2 l1). }
    f_equal. cbn [fmap list_fmap] in H1, H2.
    apply StronglySorted_cons in H1 as [_ H1], H2 as [_ H2].
    apply IH; [assumption..|]. intros k. specialize (HF k).
    cbn [List.filter] in HF. destruct (x.1 =? k); congruence.
Qed.

(** No other arrangement is both sorted and order-preserving on equal
    keys: whatever stable sort [list.sort] runs, this is its result. *)
Lemma stable_sort_unique l l' :
  StronglySorted Z.le l'.*1 →
  (∀ k, List.filter (λ y, y.1 =? k) l' = List.filter (λ y, y.1 =? k) l) →
  l' = stable_sort l.
Proof.
  intros Hs HF. apply sorted_stable_eq; [exact Hs | apply stable_sort_sorted|].
  intros k. by rewrite stable_sort_stable.
Qed.

Lemma decorate_Ok (key : A → result Z) (xs : list A) l :
  decorate key xs = Ok l → l.*2 = xs ∧ Forall (λ d, key d.2 = Ok d.1) l.
Proof.
  revert l. induction xs as [|a xs IH]; simpl; intros l H.
  - inversion H. split; [reflexivity | constructor].
  - unfold mbind, result_bind in H.
    destruct (key a) as [k|] eqn:Ha; [|discriminate].
    destruct (decorate key xs) as [ds|]; [|discriminate].
    destruct (IH ds eq_refl) as [<- Hall]. inversion H; subst.
    split; [reflexivity | by constructor].
Qed.

Lemma decorate_total (key : A → result Z) (xs : list A) :
  Forall (λ a, ∃ k, key a = Ok k) xs → ∃ l, decorate key xs = Ok l.
Proof.
  induction 1 as [|a xs [k Ha] _ [l IH]]; simpl; [by eexists|].
  unfold mbind, result_bind. rewrite Ha, IH. by eexists.
Qed.
End stable_sort_facts.

(** ** [get_availability] *)


Lemma decorated_times (ds : list (Z * dict)) :
  Forall (λ d, hora_minutes d.2 = Ok d.1) ds → Forall2 time_is ds.*2 ds.*1.
Proof.
  intros H. apply Forall2_fmap, Forall_Forall2_diag.
  eapply Forall_impl; [exact H|]. by intros [k a].
Qed.

Lemma decorated_filter k (ds : list (Z * dict)) :
  Forall (λ d, hora_minutes d.2 = Ok d.1) ds →
  (List.filter (λ y, y.1 =? k) ds).*2 = List.filter (time_eqb k) ds.*2.
Proof.
  induction 1 as [|[m a] ds Ha _ IH]; [reflexivity|].
  simpl in Ha. cbn [fmap list_fmap List.filter fst snd].
  unfold time_eqb at 1. rewrite Ha.
  destruct (m =? k); cbn [fmap list_fmap snd]; by rewrite IH.
Qed.

(** The body after the HTTP exchange: capacity, order, stability. *)
Lemma filter_and_sort_Ok p data S :
  filter_and_sort p data = Ok S →
  Forall (λ e, fits p e = true) S ∧
  sorted_by_time S ∧
  S ≡ₚ List.filter (fits p) data ∧
  ∀ k, List.filter (time_eqb k) S = List.filter (time_eqb k) (List.filter (fits p) data).
Proof.
  unfold filter_and_sort, sort_by_key. unfold mbind, result_bind. intros H.
  destruct (filter_r _ data) as [kept|] eqn:Hkept; [|discriminate].
  apply filter_r_Ok in Hkept as [_ Hkept]. fold (fits p) in Hkept.
  destruct (decorate hora_minutes kept) as [ds|] eqn:Hds; [|discriminate].
  apply decorate_Ok in Hds as [Hsnd Hkeys]. injection H as <-.
  assert (Hkeys' : Forall (λ d : Z * dict, hora_minutes d.2 = Ok d.1) (stable_sort ds)).
  { by rewrite (stable_sort_perm ds). }
  assert (Hperm : (stable_sort ds).*2 ≡ₚ List.filter (fits p) data).
  { rewrite <- Hkept, <- Hsnd. apply fmap_Permutation, stable_sort_perm. }
  repeat split.
  - rewrite Hperm. apply Forall_forall. intros e He.
    apply list_elem_of_In, filter_In in He. tauto.
  - exists (stable_sort ds).*1. split; [by apply decorated_times|].
    apply StronglySorted_Sorted, stable_sort_sorted.
  - exact Hperm.
  - intros k. rewrite <- Hkept, <- Hsnd, <- !decorated_filter by assumption.
    by rewrite stable_sort_stable.
Qed.

(** On a body in which every slot has a number (or nothing) for its
    capacity and a readable time, the filter and the sort go through. *)
Lemma filter_and_sort_total p data :
  Forall (λ x, is_Some (as_number (max_players x)) ∧ ∃ k, time_is x k) data →
  ∃ S, filter_and_sort p data = Ok S.
Proof.
  intros Hdata. unfold filter_and_sort, sort_by_key.
  rewrite filter_r_total.
  - cbn [mbind result_bind].
    destruct (decorate_total hora_minutes (List.filter (fits p) data)) as [ds Hds].
    + apply Forall_forall. intros a Ha. apply list_elem_of_In, filter_In in Ha as [Ha _].
      rewrite Forall_forall in Hdata. apply list_elem_of_In in Ha.
      destruct (Hdata a Ha) as [_ Hk]. exact Hk.
    + unfold fits in Hds. rewrite Hds. by eexists.
  - eapply Forall_impl; [exact Hdata|]. intros x [[q Hq] _]. unfold ge_int.
    rewrite Hq. by eexists.
Qed.

(** With a reply that is not an error status and a well-formed body,
    [get_availability] returns. *)
Lemma get_availability_returns net base tok day rec p fh tmo r data :
  post net base "/api/GolfHorasLeer" (availability_payload tok day rec p fh) tmo = Ok r →
  raise_for_status r = Ok () →
  json r = Ok data →
  Forall (λ x, is_Some (as_number (max_players x)) ∧ ∃ k, time_is x k) data →
  ∃ S, get_availability net base tok day rec p fh tmo = Ok S.
Proof.
  intros Hr Hstatus Hjson Hdata. unfold get_availability.
  rewrite Hr. cbn [mbind result_bind]. rewrite Hstatus, Hjson.
  by apply filter_and_sort_total.
Qed.


Example get_availability_sample :
  get_availability (net_serving [slot_1000; slot_0930; slot_0700_solo; slot_0930_b])
    "https://rcgs.abiz.es:8228/" "secret" "2025-05-01" "18 HOYOS" 2 None 5
  = Ok [slot_0930; slot_0930_b; slot_1000].
Proof. vm_compute. reflexivity. Qed.


(** C9: the request always carries ["FiltroHora"]: the default ["08:00"]
    when the caller passes [None] or the empty string, the caller's value
    otherwise; and that payload is what goes to the availability
    endpoint. *)
Theorem availability_payload_filtro_hora (net : network)
    (base tok day rec : string) (p : Z) (tmo : Q) :
  availability_payload tok day rec p None !! "FiltroHora" = Some (VStr "08:00") ∧
  availability_payload tok day rec p (Some EmptyString) !! "FiltroHora" = Some (VStr "08:00") ∧
  (∀ c s, availability_payload tok day rec p (Some (String c s)) !! "FiltroHora"
          = Some (VStr (String c s))) ∧
  ∀ fh, get_availability net base tok day rec p fh tmo =
    (r ← net (rstrip_slash base +:+ "/api/GolfHorasLeer")
             (availability_payload tok day rec p fh) tmo;
     _ ← raise_for_status r;
     data ← json r;
     filter_and_sort p data).
Proof.
  unfold availability_payload. cbn [truthy].
  repeat split; intros; by rewrite ?lookup_insert_eq.
Qed.

(** ** The polling loop *)

Lemma next_backoff_after k : next_backoff (backoff_after k) = backoff_after (S k).
Proof. destruct k as [|[|[|k]]]; reflexivity. Qed.

Lemma next_backoff_le b : (next_backoff b <= 8)%Q.
Proof.
  unfold next_backoff, py_min.
  destruct (Qle_bool _ 8) eqn:H; [by apply Qle_bool_iff | apply Qle_refl].
Qed.

Lemma next_backoff_pos b : (0 <= b)%Q → (0 < next_backoff b)%Q.
Proof.
  intros Hb. unfold next_backoff, py_min.
  destruct (Qeq_bool b 0) eqn:Hz.
  - by destruct (Qle_bool 2 8).
  - assert (¬ (b == 0)%Q) by (rewrite <- Qeq_bool_iff; congruence).
    destruct (Qle_bool (b * 2) 8); lra.
Qed.

Lemma Qle_bool_false a b : Qle_bool a b = false → (b < a)%Q.
Proof.
  intros H. apply Qnot_le_lt. rewrite <- Qle_bool_iff. congruence.
Qed.

Lemma sleep_Ok d t : (0 <= d)%Q → sleep d t = Ok (t + d)%Q.
Proof. intros H. unfold sleep. apply Qle_bool_iff in H. by rewrite H. Qed.

Lemma sleep_Ok_inv d t t' : sleep d t = Ok t' → t' = (t + d)%Q ∧ (0 <= d)%Q.
Proof.
  unfold sleep. destruct (Qle_bool 0 d) eqn:H; [|discriminate].
  apply Qle_bool_iff in H. intros [= <-]. by split.
Qed.

Lemma sleep_Raise_inv d t e : sleep d t = Raise e → e = ValueError ∧ (d < 0)%Q.
Proof.
  unfold sleep. destruct (Qle_bool 0 d) eqn:H; [discriminate|].
  apply Qle_bool_false in H. intros [= <-]. by split.
Qed.

(** Case analysis on one pass through the loop body. *)
Ltac body_cases H :=
  unfold loop_body, after_try in H; unfold query in *;
  repeat match type of H with
    | context [match ?x with _ => _ end] => destruct x eqn:?
    end;
  simplify_eq;
  repeat match goal with
    | E : Qle_bool _ _ = true |- _ => apply Qle_bool_iff in E
    | E : Qle_bool _ _ = false |- _ => apply Qle_bool_false in E
    | E : sleep _ _ = Ok _ |- _ => apply sleep_Ok_inv in E as [-> ?]
    | E : sleep _ _ = Raise _ |- _ => apply sleep_Raise_inv in E as [-> ?]
    end;
  cbn [now backoff last_avails] in *.

Lemma last_observed_foldl tr : last_observed tr = foldl observe [] tr.
Proof. reflexivity. Qed.

(** C8: an iteration whose query fails transiently leaves [last_avails] as
    it was, whether the loop goes on or returns at the deadline; and in any
    iteration [last_avails] is either kept or set to what this iteration's
    successful query returned. *)
Theorem transient_failure_keeps_last_avails (c : call) (deadline : Q)
    (v : visit) (st : loop_state) :
  (query c v = Raise RequestException →
     match (loop_body c deadline v st).1 with
     | Continue st' => last_avails st' = last_avails st
     | Done _ (Ok (pick, avails)) => pick = None ∧ avails = last_avails st
     | Done _ (Raise e) => e = ValueError
     end) ∧
  (∀ st', (loop_body c deadline v st).1 = Continue st' →
     last_avails st' = last_avails st ∨ query c v = Ok (last_avails st')).
Proof.
  split.
  - intros Hq. destruct (loop_body c deadline v st) as [s evs] eqn:H.
    body_cases H; simpl; auto; congruence.
  - intros st' Hst'. destruct (loop_body c deadline v st) as [s evs] eqn:H.
    simpl in Hst'. subst s. body_cases H; simpl; auto.
Qed.

Lemma transient_failure_keeps_last_avails_witness :
  match (loop_body (sample_call "earliest" None 1 180) 180 (down 1)
           {| now := 0; backoff := 0; last_avails := [slot_0800] |}).1 with
  | Continue st' => last_avails st' = [slot_0800]
  | Done _ (Ok (pick, avails)) => pick = None ∧ avails = [slot_0800]
  | Done _ (Raise e) => e = ValueError
  end.
Proof.
  apply (proj1 (transient_failure_keeps_last_avails
                  (sample_call "earliest" None 1 180) 180 (down 1)
                  {| now := 0; backoff := 0; last_avails := [slot_0800] |})).
  reflexivity.
Defined.

(** *** The backoff schedule *)

Lemma backoff_after_nonneg k : (0 <= backoff_after k)%Q.
Proof. destruct k as [|[|[|k]]]; simpl; lra. Qed.

Lemma failure_runs_concat cur tr :
  concat (failure_runs cur tr) = cur ++ backoff_sleeps tr.
Proof.
  revert cur. induction tr as [|e tr IH]; intros cur; simpl.
  - by rewrite !app_nil_r.
  - destruct e as [t [a|x]|t d|t d]; simpl; rewrite ?IH; try reflexivity.
    by rewrite <- app_assoc.
Qed.

Lemma failure_runs_nonempty cur tr : failure_runs cur tr ≠ [].
Proof.
  revert cur. induction tr as [|e tr IH]; intros cur; simpl; [done|].
  destruct e as [t [a|x]|t d|t d]; by try apply IH.
Qed.

(** What one pass does to the backoff: nothing, or one step of the
    schedule together with one sleep of the new value. *)
Lemma loop_body_backoff c deadline v st s evs :
  (0 <= backoff st)%Q →
  loop_body c deadline v st = (s, evs) →
  (failed_queries evs = [] ∧ backoff_sleeps evs = [] ∧
   ∀ st', s = Continue st' → backoff st' = backoff st) ∨
  (failed_queries evs = [now st] ∧
   backoff_sleeps evs = [next_backoff (backoff st)] ∧
   ∀ st', s = Continue st' → backoff st' = next_backoff (backoff st)).
Proof.
  intros Hb H. pose proof (next_backoff_pos _ Hb).
  body_cases H; try lra;
    solve [ left; repeat split; try reflexivity; intros ? [= <-]; reflexivity
          | left; repeat split; try reflexivity; by intros ? [=]
          | right; repeat split; try reflexivity; intros ? [= <-]; reflexivity
          | right; repeat split; try reflexivity; by intros ? [=] ].
Qed.

Lemma poll_loop_schedule c deadline script :
  ∀ st k o tr,
    backoff st = backoff_after k →
    poll_loop c deadline script st = (o, tr) →
    backoff_sleeps tr = backoffs_from k (length (backoff_sleeps tr)) ∧
    length (failed_queries tr) = length (backoff_sleeps tr) ∧
    ∀ st', o = Polling st' →
      backoff st' = backoff_after (k + length (backoff_sleeps tr)).
Proof.
  induction script as [|v rest IH]; intros st k o tr Hk H; simpl in H.
  - injection H as <- <-. simpl. repeat split; try reflexivity.
    intros st' [= <-]. by rewrite Nat.add_0_r.
  - destruct (loop_body c deadline v st) as [s evs] eqn:Hbody.
    apply loop_body_backoff in Hbody; [|rewrite Hk; apply backoff_after_nonneg].
    destruct s as [st1|t r].
    + destruct (poll_loop c deadline rest st1) as [o' evs'] eqn:Hrest.
      injection H as <- <-. unfold backoff_sleeps, failed_queries in *.
      rewrite !omap_app, !length_app.
      destruct Hbody as [(Hf & Hs & Hst)|(Hf & Hs & Hst)];
        specialize (Hst st1 eq_refl); rewrite Hf, Hs.
      * rewrite Hk in Hst. destruct (IH _ _ _ _ Hst Hrest) as (IH1 & IH2 & IH3).
        simpl. repeat split; assumption.
      * rewrite Hk, next_backoff_after in Hst |- *.
        destruct (IH _ _ _ _ Hst Hrest) as (IH1 & IH2 & IH3).
        simpl. repeat split.
        -- unfold backoffs_from in *. simpl. f_equal. exact IH1.
        -- by rewrite IH2.
        -- intros st' Hst'. rewrite (IH3 st' Hst'). f_equal. lia.
    + injection H as <- <-.
      destruct Hbody as [(Hf & Hs & _)|(Hf & Hs & _)]; rewrite Hf, Hs; simpl.
      * repeat split; try reflexivity. by intros ? [=].
      * rewrite Hk, next_backoff_after. repeat split; try reflexivity. by intros ? [=].
Qed.

Lemma backoffs_from_take k n m :
  take n (backoffs_from k m) = backoffs_from k (n `min` m).
Proof. unfold backoffs_from. by rewrite <- fmap_take, take_seq. Qed.

Lemma backoffs_from_lookup k n i d :
  backoffs_from k n !! i = Some d → d = backoff_after (S k + i).
Proof.
  unfold backoffs_from. rewrite list_lookup_fmap.
  destruct (seq (S k) n !! i) as [j|] eqn:Hj; [|discriminate].
  apply lookup_seq in Hj as [-> _]. by intros [= <-].
Qed.

Lemma backoff_after_base k : backoff_after (S k) = 2%Q ↔ k = 0%nat.
Proof. destruct k as [|[|k]]; simpl; split; (discriminate || reflexivity). Qed.

(** C7, as stated, fails: a stretch of failures that comes after a success
    goes on from the backoff reached before it.  Failure, success, failure,
    failure sleeps 2, then 4 and 8. *)
Lemma later_failure_run_continues :
  failure_runs []
    (poll_for_slot retry_call 0 [down 0; serving [] 0; down 0; down 0]).2
  = [[2]; [4; 8]]%Q ∧
  ¬ runs_restart
      (poll_for_slot retry_call 0 [down 0; serving [] 0; down 0; down 0]).2.
Proof.
  assert (Hruns : failure_runs []
    (poll_for_slot retry_call 0 [down 0; serving [] 0; down 0; down 0]).2
    = [[2]; [4; 8]]%Q) by (vm_compute; reflexivity).
  split; [exact Hruns|]. intros Hclaim.
  specialize (Hclaim [4; 8]%Q). rewrite Hruns in Hclaim.
  assert ([4; 8]%Q ∈ [[2]; [4; 8]]%Q) as Hin by set_solver.
  specialize (Hclaim Hin). discriminate Hclaim.
Qed.

(** C7, amended: over all the transient failures of one call, with or
    without successes in between, each failure is followed by one backoff
    sleep and the values slept are 2, 4, 8, 8, ...: the first failure of
    the call sleeps 2 and each later one the double of the previous value,
    capped at 8.  The stretches of consecutive failures are consecutive
    pieces of that one sequence; the first stretch starts at 2. *)
Theorem backoff_schedule (c : call) (start : Q) (script : list visit) :
  let tr := (poll_for_slot c start script).2 in
  backoff_sleeps tr = backoffs_from 0 (length (backoff_sleeps tr)) ∧
  length (failed_queries tr) = length (backoff_sleeps tr) ∧
  concat (failure_runs [] tr) = backoff_sleeps tr ∧
  (∃ first rest, failure_runs [] tr = first :: rest ∧
                 first = backoffs_from 0 (length first)) ∧
  backoffs_from 0 5 = [2; 4; 8; 8; 8]%Q ∧
  ∀ k, backoff_after (S k) = next_backoff (backoff_after k).
Proof.
  intros tr. subst tr. unfold poll_for_slot.
  destruct (poll_loop c _ script (initial_state start)) as [o tr] eqn:Hrun.
  destruct (poll_loop_schedule c _ script (initial_state start) 0%nat o tr eq_refl Hrun) as (Hsched & Hfail & _).
  cbn [snd]. pose proof (failure_runs_concat [] tr) as Hconcat. simpl in Hconcat.
  repeat split; try assumption.
  - destruct (failure_runs [] tr) as [|first rest] eqn:Hruns.
    { by apply failure_runs_nonempty in Hruns. }
    exists first, rest. split; [reflexivity|].
    simpl in Hconcat. rewrite Hsched in Hconcat.
    apply (f_equal (take (length first))) in Hconcat.
    rewrite take_app_length, backoffs_from_take in Hconcat.
    rewrite Hconcat at 1. f_equal.
    apply (f_equal length) in Hconcat. unfold backoffs_from in Hconcat.
    rewrite length_fmap, length_seq in Hconcat. lia.
  - intros k. by rewrite next_backoff_after.
Qed.

(** C1, as stated, fails: a success does not reset the backoff.  After one
    failure and one success the backoff is still 2, and the failure that
    follows sleeps 4. *)
Lemma backoff_survives_success :
  (poll_for_slot retry_call 0 [down 0; serving [] 0]).1
  = Polling {| now := 4; backoff := 2; last_avails := [] |} ∧
  ∃ d, failure_after_success
         (poll_for_slot retry_call 0 [down 0; serving [] 0; down 0]).2 d ∧
       ¬ (d == 2)%Q.
Proof.
  split; [vm_compute; reflexivity|]. exists 4%Q. split; [|intros H; discriminate H].
  exists [Query 0 (Raise RequestException); BackoffSleep 0 2; PollSleep 2 1],
         [PollSleep 8 1], 3%Q, [], 3%Q, 1%Q, 4%Q, 4%Q.
  vm_compute. reflexivity.
Qed.

(** C1, amended: a successful query leaves the backoff value as it is;
    nothing resets it.  The transient failure that follows a success
    sleeps the next value of the schedule 2, 4, 8, 8, ... counted over the
    failures the call has already handled, so it sleeps the base of 2
    exactly when no failure came earlier in the call. *)
Theorem success_keeps_backoff :
  (∀ c deadline v st st' evs avails,
     query c v = Ok avails →
     loop_body c deadline v st = (Continue st', evs) →
     backoff st' = backoff st ∧ backoff_sleeps evs = []) ∧
  (∀ c start script pre post t1 a t2 p t3 t4 d,
     (poll_for_slot c start script).2
     = pre ++ [Query t1 (Ok a); PollSleep t2 p;
               Query t3 (Raise RequestException); BackoffSleep t4 d] ++ post →
     d = backoff_after (S (length (backoff_sleeps pre))) ∧
     (d = 2%Q ↔ backoff_sleeps pre = [])).
Proof.
  split.
  - intros c deadline v st st' evs avails Hq H. body_cases H; by try congruence.
  - intros c start script pre post t1 a t2 p t3 t4 d Htr.
    unfold poll_for_slot in Htr.
    destruct (poll_loop c _ script (initial_state start)) as [o tr] eqn:Hrun.
    destruct (poll_loop_schedule c _ script (initial_state start) 0%nat o tr eq_refl Hrun) as (Hsched & _).
    cbn [snd] in Htr. subst tr.
    assert (Hsplit : backoff_sleeps
              (pre ++ [Query t1 (Ok a); PollSleep t2 p;
                       Query t3 (Raise RequestException); BackoffSleep t4 d] ++ post)
            = backoff_sleeps pre ++ d :: backoff_sleeps post).
    { unfold backoff_sleeps. by rewrite omap_app. }
    rewrite Hsplit in Hsched.
    assert (Hd : d = backoff_after (S (length (backoff_sleeps pre)))).
    { eapply (backoffs_from_lookup 0 _ (length (backoff_sleeps pre))).
      rewrite <- Hsched. by apply list_lookup_middle. }
    split; [exact Hd|]. rewrite Hd, backoff_after_base.
    by destruct (backoff_sleeps pre).
Qed.

Lemma success_keeps_backoff_witness :
  4%Q = backoff_after (S (length (backoff_sleeps
          [Query 0 (Raise RequestException); BackoffSleep 0 2; PollSleep 2 1]))).
Proof.
  apply (proj2 success_keeps_backoff retry_call 0%Q [down 0; serving [] 0; down 0]
           [Query 0 (Raise RequestException); BackoffSleep 0 2; PollSleep 2 1]
           [PollSleep 8 1] 3%Q [] 3%Q 1%Q 4%Q 4%Q 4%Q).
  vm_compute. reflexivity.
Defined.

(** *** What the loop returns at the deadline *)

Lemma loop_body_observe c deadline v st s evs :
  loop_body c deadline v st = (s, evs) →
  match s with
  | Continue st' => last_avails st' = foldl observe (last_avails st) evs
  | Done _ (Ok (_, a)) => a = foldl observe (last_avails st) evs
  | Done _ (Raise _) => True
  end.
Proof. intros H. body_cases H; by rewrite ?foldl_app. Qed.

(** Whatever the world does, the list handed back (or still held) is the
    one of the most recent successful query. *)
Lemma poll_loop_observe c deadline script :
  ∀ st o tr,
    poll_loop c deadline script st = (o, tr) →
    match o with
    | Polling st' => last_avails st' = foldl observe (last_avails st) tr
    | Finished _ (Ok (_, a)) => a = foldl observe (last_avails st) tr
    | Finished _ (Raise _) => True
    end.
Proof.
  induction script as [|v rest IH]; intros st o tr H; cbn [poll_loop] in H.
  - by injection H as <- <-.
  - destruct (loop_body c deadline v st) as [s evs] eqn:Hbody.
    apply loop_body_observe in Hbody. destruct s as [st1|t r].
    + destruct (poll_loop c deadline rest st1) as [o' evs'] eqn:Hrest.
      injection H as <- <-. apply IH in Hrest.
      rewrite foldl_app, <- Hbody. exact Hrest.
    + injection H as <- <-. exact Hbody.
Qed.

(** One pass on a quiet visit: it ends the call at the deadline with no
    slot, or leaves it polling. *)
Lemma loop_body_quiet c deadline v st :
  (0 <= poll_every c)%Q → (0 <= backoff st)%Q → quiet c v →
  ∃ s evs,
    loop_body c deadline v st = (s, evs) ∧ answers evs = [query c v] ∧
    ((∃ t, s = Done t (Ok (None, keep_answer (last_avails st) (query c v))) ∧
           (deadline <= t)%Q) ∨
     (∃ st1, s = Continue st1 ∧
             last_avails st1 = keep_answer (last_avails st) (query c v) ∧
             (0 <= backoff st1)%Q ∧
             (now st + elapsed v + poll_every c <= now st1)%Q ∧
             (now st1 - poll_every c < deadline)%Q)).
Proof.
  intros Hpoll Hb Hquiet. pose proof (next_backoff_pos _ Hb) as Hnb.
  destruct (loop_body c deadline v st) as [s evs] eqn:Hbody. exists s, evs.
  split; [reflexivity|].
  destruct Hquiet as [Hq|(avails & Hq & Hpick)]; rewrite Hq; unfold query in Hq;
    body_cases Hbody; try congruence; try lra;
    (split; [reflexivity|]); cbn [keep_answer].
  - left. by eexists.
  - right. eexists. repeat split; cbn [now backoff last_avails]; lra.
  - left. by eexists.
  - right. eexists. repeat split; cbn [now backoff last_avails]; lra.
Qed.

Lemma poll_loop_exhausts c deadline script :
  (0 <= poll_every c)%Q →
  ∀ st,
    script ≠ [] →
    Forall (λ v, (0 <= elapsed v)%Q) script →
    (0 <= backoff st)%Q →
    (∀ i v' st' tr', script !! i = Some v' →
       poll_loop c deadline (take i script) st = (Polling st', tr') → quiet c v') →
    (deadline <= now st + quiet_span (poll_every c) script)%Q →
    ∃ m t tr,
      (1 ≤ m ≤ length script)%nat ∧
      poll_loop c deadline script st
      = (Finished t (Ok (None, foldl keep_answer (last_avails st)
                                 (query c <$> take m script))), tr) ∧
      answers tr = query c <$> take m script ∧
      (deadline <= t)%Q.
Proof.
  intros Hpoll. induction script as [|v rest IH];
    intros st Hne Hall Hb Hmade Hspan; [done|].
  apply Forall_cons in Hall as [Hv Hrest].
  assert (Hquiet : quiet c v) by (by eapply (Hmade 0%nat v st [])).
  destruct (loop_body_quiet c deadline v st Hpoll Hb Hquiet)
    as (s & evs & Hbody & Hevs & [(t & -> & Ht)|(st1 & -> & Hlast & Hb1 & Hnow & Hlt)]).
  - exists 1%nat, t, evs. cbn [poll_loop length take fmap list_fmap foldl].
    rewrite Hbody. repeat split; try done. lia.
  - cbn [quiet_span] in Hspan.
    assert (rest ≠ []) as Hne' by (intros ->; lra).
    destruct (IH st1) as (m & t & tr & Hm & Hrun & Htr & Ht);
      [exact Hne' | exact Hrest | exact Hb1 | | |].
    { intros i w st' tr' Hi Hreach. apply (Hmade (S i) w st' (evs ++ tr')); [exact Hi|].
      change (take (S i) (v :: rest)) with (v :: take i rest).
      cbn [poll_loop]. by rewrite Hbody, Hreach. }
    { destruct rest; [done|]. lra. }
    exists (S m), t, (evs ++ tr). split; [cbn [length]; lia|].
    cbn [poll_loop]. rewrite Hbody, Hrun.
    change (take (S m) (v :: rest)) with (v :: take m rest).
    cbn [fmap list_fmap foldl]. rewrite <- Hlast.
    repeat split; [|exact Ht]. unfold answers in *. by rewrite omap_app, Hevs, Htr.
Qed.

(** C5, as stated, fails: the loop tests the deadline only after a query,
    so it makes one that starts after the deadline, and what that one
    finds is returned.  With a deadline at 1 and a poll sleep of 5, the
    only query within the waiting time selects nothing, and yet the call
    returns the slot that the query made at 5 finds. *)
Lemma late_slot_is_returned :
  poll_for_slot slow_call 0 [serving [] 0; serving [slot_0930] 1]
  = (Finished 6 (Ok (Some slot_0930, [slot_0930])),
     [Query 0 (Ok []); PollSleep 0 5; Query 5 (Ok [slot_0930])]) ∧
  quiet_within slow_call (0 + max_wait_seconds slow_call)
    (poll_for_slot slow_call 0 [serving [] 0; serving [slot_0930] 1]).2 ∧
  ¬ ∃ t a, (poll_for_slot slow_call 0 [serving [] 0; serving [slot_0930] 1]).1
           = Finished t (Ok (None, a)).
Proof.
  assert (Hrun : poll_for_slot slow_call 0 [serving [] 0; serving [slot_0930] 1]
    = (Finished 6 (Ok (Some slot_0930, [slot_0930])),
       [Query 0 (Ok []); PollSleep 0 5; Query 5 (Ok [slot_0930])]))
    by (vm_compute; reflexivity).
  split; [exact Hrun|]. rewrite Hrun. cbn [fst snd]. split.
  - intros t r Hin Ht.
    apply elem_of_cons in Hin as [Hin|Hin].
    { injection Hin as -> ->. right. exists []. by split. }
    apply elem_of_cons in Hin as [Hin|Hin]; [discriminate|].
    apply elem_of_cons in Hin as [Hin|Hin]; [|by apply elem_of_nil in Hin].
    injection Hin as -> ->. exfalso. revert Ht. apply Qle_not_lt. discriminate.
  - intros (t & a & H). discriminate H.
Qed.

(** C5, amended: when every query the call makes fails transiently or
    selects nothing (the last of them may start after the deadline, when
    the poll sleep before it began in time) and the world goes on until
    the deadline, the call returns normally at or after the deadline, with
    no slot and the slot set of the most recent successful query among
    those it made, [[]] if none succeeded.  A visit is made when the call
    is still polling after the visits before it; the visits after the last
    query made may be anything. *)
Theorem deadline_exhaustion (c : call) (start : Q) (v : visit) (script : list visit) :
  (0 <= poll_every c)%Q → (poll_every c <= sleep_max)%Q →
  Forall (λ v, (0 <= elapsed v)%Q) (v :: script) →
  (∀ i v' st tr, (v :: script) !! i = Some v' →
     poll_for_slot c start (take i (v :: script)) = (Polling st, tr) → quiet c v') →
  (max_wait_seconds c <= quiet_span (poll_every c) (v :: script))%Q →
  ∃ m t tr,
    (1 ≤ m ≤ length (v :: script))%nat ∧
    poll_for_slot c start (v :: script)
    = (Finished t (Ok (None, last_answer (query c <$> take m (v :: script)))), tr) ∧
    answers tr = query c <$> take m (v :: script) ∧
    (start + max_wait_seconds c <= t)%Q.
Proof.
  intros Hpoll _ Hall Hmade Hspan. unfold poll_for_slot in *.
  apply (poll_loop_exhausts c (start + max_wait_seconds c) (v :: script) Hpoll
           (initial_state start)); try done.
  cbn [initial_state now]. revert Hspan.
  generalize (quiet_span (poll_every c) (v :: script)). intros; lra.
Qed.

Example scenario_E :
  poll_for_slot (sample_call "closest" (Some "09:00") 1 3) 0
    [serving [slot_0800] 1; down 1; serving [slot_0800] 1]
  = (Finished 5 (Ok (None, [slot_0800])),
     [Query 0 (Ok [slot_0800]); PollSleep 1 1;
      Query 2 (Raise RequestException); BackoffSleep 3 2]).
Proof. vm_compute. reflexivity. Qed.

Lemma deadline_exhaustion_witness :
  ∃ m t tr,
    (1 ≤ m ≤ 3)%nat ∧
    poll_for_slot (sample_call "closest" (Some "09:00") 1 3) 0
      [serving [slot_0800] 1; down 1; serving [slot_1000] 1]
    = (Finished t
         (Ok (None, last_answer
                      (query (sample_call "closest" (Some "09:00") 1 3)
                         <$> take m [serving [slot_0800] 1; down 1;
                                     serving [slot_1000] 1]))), tr) ∧
    answers tr
    = query (sample_call "closest" (Some "09:00") 1 3)
        <$> take m [serving [slot_0800] 1; down 1; serving [slot_1000] 1] ∧
    (0 + max_wait_seconds (sample_call "closest" (Some "09:00") 1 3) <= t)%Q.
Proof.
  apply (deadline_exhaustion (sample_call "closest" (Some "09:00") 1 3) 0
           (serving [slot_0800] 1) [down 1; serving [slot_1000] 1]).
  - discriminate.
  - discriminate.
  - repeat (apply List.Forall_cons; [discriminate|]). apply List.Forall_nil.
  - intros i v' st tr Hi Hreach. destruct i as [|[|[|i]]].
    + injection Hi as <-. right. exists [slot_0800]. split; vm_compute; reflexivity.
    + injection Hi as <-. left. vm_compute. reflexivity.
    + exfalso. vm_compute in Hreach. discriminate Hreach.
    + discriminate Hi.
  - discriminate.
Defined.

(** *** The deadline *)

Ltac split_elem :=
  repeat match goal with
    | H : _ ∈ _ ++ _ |- _ => apply elem_of_app in H as [H|H]
    | H : _ ∈ _ :: _ |- _ => apply elem_of_cons in H as [H|H]
    | H : _ ∈ [] |- _ => by apply elem_of_nil in H
    end;
  simplify_eq.

(** One pass: the poll sleep starts before the deadline, the query at the
    top of the pass, and the pass is over at most a query and a backoff
    sleep later. *)
Lemma loop_body_times c deadline v st s evs :
  loop_body c deadline v st = (s, evs) →
  (∀ t d, PollSleep t d ∈ evs → (t < deadline)%Q) ∧
  (∀ t r, Query t r ∈ evs → t = now st) ∧
  (∀ st', s = Continue st' → (now st' < deadline + poll_every c)%Q) ∧
  (∀ t r, s = Done t r → (t <= now st + elapsed v + 8)%Q).
Proof.
  intros H. pose proof (next_backoff_le (backoff st)).
  body_cases H; repeat split; intros; split_elem; cbn [now]; try done; lra.
Qed.

Lemma poll_loop_times c deadline script :
  ∀ st o tr,
    poll_loop c deadline script st = (o, tr) →
    (∀ t d, PollSleep t d ∈ tr → (t < deadline)%Q) ∧
    (∀ t r, Query t r ∈ tr → t = now st ∨ (t < deadline + poll_every c)%Q) ∧
    (∀ B D t r,
       (now st <= B)%Q → (deadline + poll_every c <= B)%Q →
       Forall (λ v, (elapsed v <= D)%Q) script →
       o = Finished t r → (t <= B + D + 8)%Q).
Proof.
  induction script as [|v rest IH]; intros st o tr H; cbn [poll_loop] in H.
  - injection H as <- <-. repeat split; intros; by split_elem.
  - destruct (loop_body c deadline v st) as [s evs] eqn:Hbody.
    apply loop_body_times in Hbody as (Hpoll & Hquery & Hcont & Hdone).
    destruct s as [st1|t1 r1].
    + destruct (poll_loop c deadline rest st1) as [o' evs'] eqn:Hrest.
      injection H as <- <-. apply IH in Hrest as (IHpoll & IHquery & IHend).
      specialize (Hcont st1 eq_refl). repeat split.
      * intros t d Hin. split_elem; eauto.
      * intros t r Hin. split_elem; [left; eauto|].
        destruct (IHquery _ _ Hin) as [->|Hlt]; right; assumption.
      * intros B D t r HB Hdl Hall ->. apply Forall_cons in Hall as [_ Hall].
        eapply IHend; [lra | exact Hdl | exact Hall | reflexivity].
    + injection H as <- <-. repeat split.
      * intros t d Hin. eauto.
      * intros t r Hin. left. eauto.
      * intros B D t r HB Hdl Hall [= <- <-]. apply Forall_cons in Hall as [Hv _].
        specialize (Hdone t1 r1 eq_refl). lra.
Qed.

(** C4, as stated, fails: the deadline is tested once per pass, after the
    query and its backoff sleep.  With a deadline at 1, the retry starts at
    5, its backoff sleep at 10, and the call returns at 12. *)
Lemma deadline_overrun :
  poll_for_slot slow_call 0 [serving [] 0; down 5]
  = (Finished 12 (Ok (None, [])),
     [Query 0 (Ok []); PollSleep 0 5;
      Query 5 (Raise RequestException); BackoffSleep 10 2]) ∧
  ¬ within_deadline (0 + max_wait_seconds slow_call)
      (poll_for_slot slow_call 0 [serving [] 0; down 5]).2.
Proof.
  assert (Hrun : poll_for_slot slow_call 0 [serving [] 0; down 5]
    = (Finished 12 (Ok (None, [])),
       [Query 0 (Ok []); PollSleep 0 5;
        Query 5 (Raise RequestException); BackoffSleep 10 2]))
    by (vm_compute; reflexivity).
  split; [exact Hrun|]. rewrite Hrun. unfold within_deadline. cbn [snd tail].
  intros Hall. apply Forall_cons in Hall as [_ Hall].
  apply Forall_cons in Hall as [Hquery _]. simpl in Hquery.
  revert Hquery. apply Qle_not_lt. discriminate.
Qed.

(** C4, amended: a poll-interval sleep never begins at or past the
    deadline, and every query but the first begins less than one poll
    interval after it; nothing is said of when a backoff sleep begins.  A
    call whose queries take at most [D] each is over, with or without a
    slot, by [maxWait] plus one poll interval, one query and one backoff
    sleep of 8 at most. *)
Theorem deadline_respect (c : call) (start : Q) (script : list visit) :
  let deadline := (start + max_wait_seconds c)%Q in
  let run := poll_for_slot c start script in
  (∀ t d, PollSleep t d ∈ run.2 → (t < deadline)%Q) ∧
  (∀ t r, Query t r ∈ run.2 → t = start ∨ (t < deadline + poll_every c)%Q) ∧
  (∀ D t r,
     (0 <= poll_every c)%Q → (0 <= max_wait_seconds c)%Q →
     Forall (λ v, (elapsed v <= D)%Q) script →
     run.1 = Finished t r →
     (t <= start + max_wait_seconds c + poll_every c + D + 8)%Q).
Proof.
  intros deadline run. subst run. unfold poll_for_slot. fold deadline.
  destruct (poll_loop c deadline script (initial_state start)) as [o tr] eqn:Hrun.
  apply poll_loop_times in Hrun as (Hpoll & Hquery & Hend). cbn [fst snd].
  repeat split; [exact Hpoll | exact Hquery |].
  intros D t r Hp Hw Hall ->.
  eapply (Hend (deadline + poll_every c)%Q D); [| apply Qle_refl | exact Hall | reflexivity].
  subst deadline. simpl. lra.
Qed.

Lemma deadline_respect_witness :
  (12 <= 0 + max_wait_seconds slow_call + poll_every slow_call + 5 + 8)%Q.
Proof.
  apply (proj2 (proj2 (deadline_respect slow_call 0 [serving [] 0; down 5]))
           5%Q 12%Q (Ok (None, []))).
  - discriminate.
  - discriminate.
  - repeat constructor; discriminate.
  - vm_compute. reflexivity.
Defined.

(** * Further properties *)

(** ** Reading times *)

Lemma split_colon_nonempty s : split_colon s ≠ [].
Proof.
  destruct s as [|c s]; simpl; [done|].
  destruct (Ascii.eqb c ":"); [done|]. by destruct (split_colon s).
Qed.

(** X1: [split] at colons loses nothing: joining the parts with colons
    gives the string back, and there is one part more than there are
    colons. *)
Theorem split_colon_join (s : string) :
  join_colon (split_colon s) = s ∧
  length (split_colon s) = S (count_colons s).
Proof.
  induction s as [|c s [IHj IHl]]; [done|]. cbn [split_colon count_colons].
  destruct (Ascii.eqb c ":") eqn:Hc.
  - apply Ascii.eqb_eq in Hc as ->. split.
    + cbn [join_colon]. pose proof (split_colon_nonempty s).
      destruct (split_colon s) as [|a l] eqn:Hs; [done|].
      cbn [String.append]. by rewrite IHj.
    + cbn [length]. by rewrite IHl.
  - pose proof (split_colon_nonempty s).
    destruct (split_colon s) as [|a l] eqn:Hs; [done|]. split.
    + destruct l as [|b l]; simpl in *; rewrite <- IHj; reflexivity.
    + exact IHl.
Qed.

Lemma py_int_error a e : py_int a = Raise e → e = ValueError.
Proof.
  unfold py_int.
  repeat match goal with
    | |- context [match ?x with _ => _ end] => destruct x
    end; congruence.
Qed.

Lemma to_minutes_error s e : to_minutes s = Raise e → e = ValueError.
Proof.
  unfold to_minutes.
  destruct (split_colon s) as [|a [|b [|? ?]]]; try congruence.
  cbn [mbind result_bind].
  destruct (py_int a) as [h|e1] eqn:Ha; [|apply py_int_error in Ha; by intros [= <-]].
  destruct (py_int b) as [m|e2] eqn:Hb; [|apply py_int_error in Hb; by intros [= <-]].
  discriminate.
Qed.

(** X2: [to_minutes] fails with [ValueError] only, and does so on every
    string that has not exactly one colon. *)
Theorem to_minutes_errors (s : string) :
  (∀ e, to_minutes s = Raise e → e = ValueError) ∧
  (count_colons s ≠ 1%nat → to_minutes s = Raise ValueError).
Proof.
  split.
  - intros e. apply to_minutes_error.
  - intros Hn. unfold to_minutes.
    destruct (split_colon_join s) as [_ Hlen].
    destruct (split_colon s) as [|a [|b [|? ?]]]; try reflexivity.
    simpl in Hlen. congruence.
Qed.

Lemma to_minutes_errors_witness : to_minutes "0930" = Raise ValueError.
Proof.
  apply (proj2 (to_minutes_errors "0930")). vm_compute. discriminate.
Defined.

Lemma to_minutes_hhmm_table :
  forallb (λ h, forallb (λ m,
      match to_minutes (hhmm h m) with
      | Ok t => t =? 60 * h + m
      | Raise _ => false
      end) (Z.of_nat <$> seq 0 100)) (Z.of_nat <$> seq 0 100) = true.
Proof. vm_compute. reflexivity. Qed.

(** X3: a time written ["HH:MM"] with two digits each reads as
    [60 * HH + MM]; no range is enforced, so ["24:60"] or ["99:99"] read
    as well. *)
Theorem to_minutes_hhmm (h m : Z) :
  0 ≤ h < 100 → 0 ≤ m < 100 → to_minutes (hhmm h m) = Ok (60 * h + m).
Proof.
  intros Hh Hm. pose proof to_minutes_hhmm_table as Htab.
  rewrite forallb_forall in Htab.
  assert (Hin : ∀ n, 0 ≤ n < 100 → In n (Z.of_nat <$> seq 0 100)).
  { intros n Hn. apply list_elem_of_In, list_elem_of_fmap.
    exists (Z.to_nat n). split; [lia|]. apply elem_of_seq. lia. }
  specialize (Htab h (Hin h Hh)). rewrite forallb_forall in Htab.
  specialize (Htab m (Hin m Hm)).
  destruct (to_minutes (hhmm h m)) as [t|]; [|discriminate].
  f_equal. lia.
Qed.

Lemma to_minutes_hhmm_witness : to_minutes (hhmm 24 60) = Ok 1500.
Proof. apply (to_minutes_hhmm 24 60); lia. Defined.

(** ** URLs *)

Lemma rstrip_slash_only n : rstrip_slash (slashes n) = EmptyString.
Proof. induction n as [|n IH]; simpl; [done | by rewrite IH]. Qed.

Lemma rstrip_slash_slashes base n :
  rstrip_slash (base +:+ slashes n) = rstrip_slash base.
Proof.
  induction base as [|c base IH]; simpl; [apply rstrip_slash_only | by rewrite IH].
Qed.

(** X4: slashes at the end of the base URL change nothing: the
    availability and the reservation requests go to the same URL with the
    same payload. *)
Theorem trailing_slashes_ignored (base : string) (n : nat) :
  (∀ net path payload tmo,
     post net (base +:+ slashes n) path payload tmo = post net base path payload tmo) ∧
  (∀ net tok day rec p fh tmo,
     get_availability net (base +:+ slashes n) tok day rec p fh tmo
     = get_availability net base tok day rec p fh tmo) ∧
  (∀ net tok fecha hora rec p tmo,
     reserve net (base +:+ slashes n) tok fecha hora rec p tmo
     = reserve net base tok fecha hora rec p tmo).
Proof.
  repeat split; intros;
    unfold get_availability, reserve, post, post_commit;
    by rewrite rstrip_slash_slashes.
Qed.

(** ** [get_availability]: errors and composition *)

Lemma hora_minutes_error a e :
  hora_minutes a = Raise e → e = KeyError ∨ e = AttributeError ∨ e = ValueError.
Proof.
  unfold hora_minutes, to_minutes_value.
  destruct (a !! "Hora") as [[]|]; try (intros [= <-]; tauto).
  intros H. apply to_minutes_error in H. tauto.
Qed.

Lemma filter_r_capacity_TypeError p data :
  Exists (λ x, as_number (max_players x) = None) data →
  filter_r (λ x, ge_int (max_players x) p) data = Raise TypeError.
Proof.
  induction data as [|x data IH]; intros H; [by apply Exists_nil in H|].
  cbn [filter_r]. destruct (ge_int (max_players x) p) as [b|e] eqn:Hge.
  - cbn [mbind result_bind]. apply Exists_cons in H as [H|H].
    + unfold ge_int in Hge. rewrite H in Hge. discriminate.
    + by rewrite (IH H).
  - unfold ge_int in Hge. destruct (as_number (max_players x)); by inversion Hge.
Qed.

Lemma decorate_Raise {A} (key : A → result Z) (l : list A) e :
  decorate key l = Raise e → ∃ x, x ∈ l ∧ key x = Raise e.
Proof.
  induction l as [|x l IH]; [discriminate|]. cbn [decorate mbind result_bind].
  destruct (key x) as [k|e1] eqn:Hx.
  - destruct (decorate key l) as [ds|e2]; [discriminate|].
    intros [= <-]. destruct (IH eq_refl) as (y & Hy & Hky).
    exists y. split; [by apply list_elem_of_further | exact Hky].
  - intros [= <-]. exists x. split; [apply list_elem_of_here | exact Hx].
Qed.

Lemma capacity_readable p data :
  Forall (λ x, is_Some (as_number (max_players x))) data →
  filter_r (λ x, ge_int (max_players x) p) data = Ok (List.filter (fits p) data).
Proof.
  intros H. apply filter_r_total. eapply Forall_impl; [exact H|].
  intros x [q Hq]. unfold ge_int. rewrite Hq. by eexists.
Qed.

(** X5: when [get_availability] raises on a decoded body.  A capacity that
    is not a number is a [TypeError], whatever else the body holds.  With
    numbers for all capacities, the call returns exactly when every slot
    with room for the party has a readable time (a slot that is dropped
    may have any ["Hora"], or none), and otherwise raises [KeyError],
    [AttributeError] or [ValueError]. *)
Theorem filter_and_sort_outcome (p : Z) (data : list dict) :
  (Exists (λ x, as_number (max_players x) = None) data →
     filter_and_sort p data = Raise TypeError) ∧
  (Forall (λ x, is_Some (as_number (max_players x))) data →
     ((∃ S, filter_and_sort p data = Ok S) ↔
        Forall (λ x, ∃ k, time_is x k) (List.filter (fits p) data)) ∧
     (∀ e, filter_and_sort p data = Raise e →
        e = KeyError ∨ e = AttributeError ∨ e = ValueError)).
Proof.
  split.
  - intros H. unfold filter_and_sort. by rewrite filter_r_capacity_TypeError.
  - intros Hcap. unfold filter_and_sort, sort_by_key.
    rewrite (capacity_readable p data Hcap). cbn [mbind result_bind].
    destruct (decorate hora_minutes (List.filter (fits p) data)) as [ds|e0] eqn:Hds.
    + split; [|discriminate]. split; [intros _|by eexists].
      apply decorate_Ok in Hds as [<- Hkeys].
      apply Forall_fmap. eapply Forall_impl; [exact Hkeys|].
      intros [k a] Ha. by exists k.
    + apply decorate_Raise in Hds as (x & Hx & Hraise). split.
      * split; [intros [S HS]; discriminate|]. intros Hall.
        rewrite Forall_forall in Hall. destruct (Hall x Hx) as [k Hk].
        unfold time_is in Hk. congruence.
      * intros e [= <-]. by eapply hora_minutes_error.
Qed.

Lemma filter_and_sort_outcome_witness :
  ∃ S, filter_and_sort 2 [slot_1000; slot_no_time; slot_0930] = Ok S.
Proof.
  assert (Hcap : Forall (λ x, is_Some (as_number (max_players x)))
                   [slot_1000; slot_no_time; slot_0930]).
  { repeat constructor; by eexists. }
  apply (proj2 (proj1 (proj2 (filter_and_sort_outcome 2
           [slot_1000; slot_no_time; slot_0930]) Hcap))).
  apply List.Forall_cons; [by exists 600|].
  apply List.Forall_cons; [by exists 570|]. apply List.Forall_nil.
Defined.

Lemma stable_sort_sorted_id {A} (l : list (Z * A)) :
  StronglySorted Z.le l.*1 → stable_sort l = l.
Proof.
  intros Hs. symmetry. apply sorted_stable_eq; [exact Hs | apply stable_sort_sorted|].
  intros k. by rewrite stable_sort_stable.
Qed.

Lemma decorate_times S ks :
  Forall2 time_is S ks → decorate hora_minutes S = Ok (zip ks S).
Proof.
  induction 1 as [|a k S ks Ha _ IH]; [reflexivity|].
  cbn [decorate mbind result_bind]. unfold time_is in Ha. by rewrite Ha, IH.
Qed.

Lemma filter_all {A} (f : A → bool) l :
  Forall (λ x, f x = true) l → List.filter f l = l.
Proof. induction 1 as [|x l Hx _ IH]; simpl; [done | by rewrite Hx, IH]. Qed.

Lemma fits_readable p x :
  fits p x = true → ∃ b, ge_int (max_players x) p = Ok b.
Proof.
  unfold fits, holds. destruct (ge_int (max_players x) p); [by eexists | discriminate].
Qed.

(** X6: a slot set that [get_availability] produced goes through its
    filter and sort unchanged, for the same party size. *)
Theorem filter_and_sort_idempotent (p : Z) (data S : list dict) :
  filter_and_sort p data = Ok S → filter_and_sort p S = Ok S.
Proof.
  intros H. apply filter_and_sort_Ok in H as (Hfits & (ks & Hks & Hsorted) & _).
  unfold filter_and_sort, sort_by_key. rewrite filter_r_total.
  - fold (fits p). rewrite (filter_all _ _ Hfits). cbn [mbind result_bind].
    rewrite (decorate_times _ _ Hks). cbn [mbind result_bind].
    pose proof (Forall2_length _ _ _ Hks) as Hlen.
    rewrite stable_sort_sorted_id.
    + by rewrite snd_zip by lia.
    + rewrite fst_zip by lia. apply Sorted_StronglySorted; [|exact Hsorted].
      intros ???; lia.
  - eapply Forall_impl; [exact Hfits|]. intros x. apply fits_readable.
Qed.

Lemma filter_and_sort_idempotent_witness :
  filter_and_sort 2 [slot_0930; slot_1000] = Ok [slot_0930; slot_1000].
Proof.
  apply (filter_and_sort_idempotent 2 [slot_1000; slot_0930]).
  vm_compute. reflexivity.
Defined.

Lemma filter_filter {A} (f g : A → bool) l :
  List.filter f (List.filter g l) = List.filter (λ x, g x && f x) l.
Proof.
  induction l as [|x l IH]; [done|]. simpl.
  destruct (g x); simpl; [destruct (f x)|]; by rewrite IH.
Qed.

(** X7: querying and then picking the earliest slot.  The slot picked has
    room for the party and the least time of day among the slots of the
    response that have room; among those of that same time it is the one
    the response lists first. *)
Theorem earliest_of_response (p : Z) (data S : list dict)
    (target : option string) (x : dict) :
  filter_and_sort p data = Ok S →
  pick_slot S "earliest" target = Ok (Some x) →
  ∃ k, time_is x k ∧ fits p x = true ∧
    (∀ y ky, y ∈ data → fits p y = true → time_is y ky → k ≤ ky) ∧
    head (List.filter (λ y, fits p y && time_eqb k y) data) = Some x.
Proof.
  intros Hfs Hpick. pose proof Hfs as Hfs'.
  apply filter_and_sort_Ok in Hfs as (Hfits & Hsorted & Hperm & Hstable).
  destruct S as [|x' S]; [discriminate|]. injection Hpick as ->.
  pose proof Hsorted as (ks & Hks & _).
  inversion Hks as [|? k ? ks' Hx _]; subst. exists k.
  apply Forall_cons in Hfits as [Hx_fits _].
  split; [exact Hx|]. split; [exact Hx_fits|]. split.
  - intros y ky Hy Hy_fits Hky.
    assert (y ∈ x :: S) as Hin.
    { rewrite Hperm. apply list_elem_of_In, filter_In. split; [by apply list_elem_of_In | done]. }
    apply elem_of_cons in Hin as [->|Hin].
    + rewrite (time_is_inj _ _ _ Hky Hx). lia.
    + by eapply (sorted_by_time_later [] x S).
  - rewrite <- filter_filter, <- Hstable. cbn [List.filter].
    unfold time_eqb at 1. unfold time_is in Hx. rewrite Hx, Z.eqb_refl. reflexivity.
Qed.

Lemma earliest_of_response_witness :
  ∃ k, time_is slot_0930 k ∧ fits 2 slot_0930 = true ∧
    (∀ y ky, y ∈ [slot_1000; slot_0930; slot_0700_solo; slot_0930_b] →
       fits 2 y = true → time_is y ky → k ≤ ky) ∧
    head (List.filter (λ y, fits 2 y && time_eqb k y)
            [slot_1000; slot_0930; slot_0700_solo; slot_0930_b]) = Some slot_0930.
Proof.
  apply (earliest_of_response 2 [slot_1000; slot_0930; slot_0700_solo; slot_0930_b]
           [slot_0930; slot_0930_b; slot_1000] None slot_0930).
  - vm_compute. reflexivity.
  - reflexivity.
Defined.

(** ** [pick_slot]: membership and errors *)

Lemma filter_r_Raise_inv {A} (f : A → result bool) l e :
  filter_r f l = Raise e → ∃ x, x ∈ l ∧ f x = Raise e.
Proof.
  induction l as [|x l IH]; [discriminate|]. cbn [filter_r mbind result_bind].
  destruct (f x) as [b|e1] eqn:Hx.
  - destruct (filter_r f l) as [kept|e2]; [discriminate|].
    intros [= <-]. destruct (IH eq_refl) as (y & Hy & Hfy).
    exists y. split; [by apply list_elem_of_further | exact Hfy].
  - intros [= <-]. exists x. split; [apply list_elem_of_here | exact Hx].
Qed.

Lemma pick_slot_elem S m target x :
  pick_slot S m target = Ok (Some x) → x ∈ S.
Proof.
  unfold pick_slot. destruct S as [|first rest]; [discriminate|].
  destruct (String.eqb m "earliest" || negb (truthy target)).
  { intros [= <-]. apply list_elem_of_here. }
  destruct (String.eqb m "closest"); [|discriminate].
  destruct (to_minutes_opt target) as [t0|]; [|discriminate].
  cbn [mbind result_bind].
  destruct (filter_r _ (first :: rest)) as [cands|] eqn:Hc; [|discriminate].
  cbn [mbind result_bind]. intros [= Hhead].
  apply filter_r_Ok in Hc as [_ ->].
  apply head_filter_Some in Hhead as (l1 & l2 & -> & _). set_solver.
Qed.

(** X8: [pick_slot] never invents a slot: what it returns is an element of
    the list, in every mode; on the empty list it returns [None] whatever
    the mode and the target, unknown modes and unreadable targets
    included. *)
Theorem pick_slot_member (S : list dict) (m : string) (target : option string) :
  (∀ x, pick_slot S m target = Ok (Some x) → x ∈ S) ∧
  pick_slot [] m target = Ok None.
Proof. split; [intros x; apply pick_slot_elem | reflexivity]. Qed.

Lemma pick_slot_member_witness : slot_1000 ∈ [slot_0930; slot_1000].
Proof.
  apply (proj1 (pick_slot_member [slot_0930; slot_1000] "closest" (Some "09:45"))).
  vm_compute. reflexivity.
Defined.

(** X9: in "closest" mode with a target, on a non-empty list, [pick_slot]
    reads the target and then the time of every slot, those after the one
    it would pick included: it returns exactly when all of them are
    readable; an unreadable target is a [ValueError]. *)
Theorem pick_slot_closest_reads_all (first : dict) (rest : list dict)
    (c : ascii) (s : string) :
  ((∃ r, pick_slot (first :: rest) "closest" (Some (String c s)) = Ok r) ↔
     (∃ t, to_minutes (String c s) = Ok t) ∧
     Forall (λ a, ∃ k, time_is a k) (first :: rest)) ∧
  ((∀ t, to_minutes (String c s) ≠ Ok t) →
     pick_slot (first :: rest) "closest" (Some (String c s)) = Raise ValueError).
Proof.
  unfold pick_slot. cbn [String.eqb Ascii.eqb Bool.eqb orb negb truthy to_minutes_opt].
  destruct (to_minutes (String c s)) as [t|e] eqn:Ht; cbn [mbind result_bind].
  - split; [|intros H; by destruct (H t)].
    destruct (filter_r _ (first :: rest)) as [cands|e] eqn:Hc; cbn [mbind result_bind].
    + split; [intros _|by eexists]. split; [by eexists|].
      apply filter_r_Ok in Hc as [Hall _]. eapply Forall_impl; [exact Hall|].
      intros a [b Hb]. cbn [mbind result_bind] in Hb.
      destruct (hora_minutes a) as [k|] eqn:Ha; [by exists k | discriminate].
    + split; [intros [r Hr]; discriminate|]. intros [_ Hall].
      apply filter_r_Raise_inv in Hc as (a & Ha & Hraise).
      rewrite Forall_forall in Hall. destruct (Hall a Ha) as [k Hk].
      unfold time_is in Hk. rewrite Hk in Hraise. discriminate.
  - apply to_minutes_error in Ht as ->. split; [|reflexivity].
    split; [intros [r Hr]; discriminate | intros [[t Ht] _]; discriminate].
Qed.

Lemma pick_slot_closest_reads_all_witness :
  pick_slot [slot_0930; slot_1000] "closest" (Some "soon") = Raise ValueError.
Proof.
  apply (proj2 (pick_slot_closest_reads_all slot_0930 [slot_1000] "s" "oon")).
  intros t. discriminate.
Defined.

(** ** The polling loop: which failures are retried *)

Lemma filter_and_sort_error p data e :
  filter_and_sort p data = Raise e →
  e = TypeError ∨ e = KeyError ∨ e = AttributeError ∨ e = ValueError.
Proof.
  unfold filter_and_sort, sort_by_key.
  destruct (filter_r _ data) as [kept|e0] eqn:Hkept; cbn [mbind result_bind].
  - destruct (decorate hora_minutes kept) as [ds|e1] eqn:Hds; [discriminate|].
    intros [= <-]. apply decorate_Raise in Hds as (x & _ & Hx).
    apply hora_minutes_error in Hx. tauto.
  - intros [= <-]. apply filter_r_Raise_inv in Hkept as (x & _ & Hx).
    unfold ge_int in Hx. destruct (as_number (max_players x)); [discriminate|].
    injection Hx as <-. tauto.
Qed.

Lemma query_replying c v code body :
  service v = net_replying code body →
  query c v = if http_error code then Raise RequestException
              else data ← body; filter_and_sort (players c) data.
Proof.
  intros Hv. unfold query, get_availability, post. rewrite Hv.
  unfold net_replying, raise_for_status, http_error. cbn [mbind result_bind status_code json].
  by destruct ((400 <=? code) && (code <? 600)).
Qed.

(** X10: every HTTP error status, a 401 or 403 as much as a 500, makes the
    query a transient failure, whatever the body: the loop sleeps the next
    backoff, keeps [last_avails], and returns only if the deadline has
    come, in which case it returns no slot; otherwise it polls again. *)
Theorem http_error_status_retried (c : call) (deadline : Q) (v : visit)
    (st : loop_state) (code : Z) (body : result (list dict)) :
  service v = net_replying code body → 400 ≤ code < 600 →
  query c v = Raise RequestException ∧
  ((0 <= backoff st)%Q → (0 <= poll_every c)%Q →
   let b := next_backoff (backoff st) in
   let t := (now st + elapsed v + b)%Q in
   loop_body c deadline v st =
     if Qle_bool deadline t then
       (Done t (Ok (None, last_avails st)),
        [Query (now st) (Raise RequestException);
         BackoffSleep (now st + elapsed v) b])
     else
       (Continue {| now := t + poll_every c; backoff := b;
                    last_avails := last_avails st |},
        [Query (now st) (Raise RequestException);
         BackoffSleep (now st + elapsed v) b; PollSleep t (poll_every c)])).
Proof.
  intros Hv Hcode.
  assert (Hq : query c v = Raise RequestException).
  { rewrite (query_replying c v code body Hv). unfold http_error.
    replace (400 <=? code) with true by lia. by replace (code <? 600) with true by lia. }
  split; [exact Hq|]. intros Hb Hpoll b t. subst b t.
  unfold loop_body, after_try. fold (query c v). rewrite Hq.
  rewrite sleep_Ok by (apply Qlt_le_weak, next_backoff_pos, Hb).
  cbn [now backoff last_avails].
  destruct (Qle_bool deadline _); [reflexivity|]. by rewrite sleep_Ok.
Qed.

Lemma http_error_status_retried_witness :
  query retry_call unauthorized = Raise RequestException.
Proof.
  apply (http_error_status_retried retry_call 180 unauthorized (initial_state 0)
           401 (Raise RequestException)).
  - reflexivity.
  - lia.
Defined.

(** X11: a body that cannot be filtered and sorted (a capacity that is not
    a number, a slot with room but no readable time) ends the call at once
    with that exception: no backoff, no further query. *)
Theorem malformed_body_is_fatal (c : call) (deadline : Q) (v : visit)
    (rest : list visit) (st : loop_state) (code : Z) (data : list dict) (e : exn) :
  service v = net_replying code (Ok data) → ¬ (400 ≤ code < 600) →
  filter_and_sort (players c) data = Raise e →
  e ≠ RequestException ∧
  poll_loop c deadline (v :: rest) st
  = (Finished (now st + elapsed v) (Raise e), [Query (now st) (Raise e)]).
Proof.
  intros Hv Hcode Hraise.
  assert (Hq : query c v = Raise e).
  { rewrite (query_replying c v code (Ok data) Hv). unfold http_error.
    destruct (400 <=? code) eqn:H1, (code <? 600) eqn:H2; try exact Hraise. lia. }
  apply filter_and_sort_error in Hraise.
  assert (e ≠ RequestException) as Hne.
  { destruct Hraise as [-> | [-> | [-> | ->]]]; discriminate. }
  split; [exact Hne|].
  cbn [poll_loop]. unfold loop_body. fold (query c v). rewrite Hq.
  by destruct e.
Qed.

Lemma malformed_body_is_fatal_witness :
  poll_loop (sample_call "earliest" None 1 180) 180 [garbled; down 1] (initial_state 0)
  = (Finished (0 + 1) (Raise KeyError), [Query 0 (Raise KeyError)]).
Proof.
  apply (proj2 (malformed_body_is_fatal (sample_call "earliest" None 1 180) 180
                  garbled [down 1] (initial_state 0) 200 [slot_vague] KeyError
                  eq_refl ltac:(lia) eq_refl)).
Defined.

(** ** The polling loop: what comes back and what is sent *)

Lemma query_Ok_inv c v S :
  query c v = Ok S → ∃ data, filter_and_sort (players c) data = Ok S.
Proof.
  unfold query, get_availability. unfold mbind at 1 2 3, result_bind.
  destruct (post _ _ _ _ _) as [r|]; [|discriminate].
  destruct (raise_for_status r); [|discriminate].
  destruct (json r) as [data|]; [|discriminate]. by exists data.
Qed.

Lemma loop_body_picked c deadline v st t p a evs :
  loop_body c deadline v st = (Done t (Ok (Some p, a)), evs) →
  query c v = Ok a ∧ pick_slot a (mode c) (target_time c) = Ok (Some p) ∧
  evs = [Query (now st) (Ok a)] ∧ t = (now st + elapsed v)%Q.
Proof. intros H. body_cases H. by repeat split. Qed.

Lemma poll_loop_picked c deadline script :
  ∀ st t p a tr,
    poll_loop c deadline script st = (Finished t (Ok (Some p, a)), tr) →
    ∃ v t0, v ∈ script ∧ query c v = Ok a ∧
            pick_slot a (mode c) (target_time c) = Ok (Some p) ∧
            last tr = Some (Query t0 (Ok a)).
Proof.
  induction script as [|v rest IH]; intros st t p a tr H; cbn [poll_loop] in H; [discriminate|].
  destruct (loop_body c deadline v st) as [[st1|t1 r1] evs] eqn:Hbody.
  - destruct (poll_loop c deadline rest st1) as [o' evs'] eqn:Hrest.
    injection H as -> <-. destruct (IH _ _ _ _ _ Hrest) as (v' & t0 & Hin & Hq & Hp & Hlast).
    exists v', t0. repeat split; try assumption; [by apply list_elem_of_further|].
    destruct evs' as [|e evs']; [discriminate|]. by rewrite last_app_cons.
  - injection H as -> -> <-.
    apply loop_body_picked in Hbody as (Hq & Hp & -> & _).
    exists v, (now st). repeat split; try assumption. apply list_elem_of_here.
Qed.

Lemma poll_for_slot_picked c start t script p a tr :
  poll_for_slot c start script = (Finished t (Ok (Some p, a)), tr) →
  (∃ t0, last tr = Some (Query t0 (Ok a))) ∧
  pick_slot a (mode c) (target_time c) = Ok (Some p) ∧
  p ∈ a ∧ fits (players c) p = true ∧ (∃ k, time_is p k) ∧ sorted_by_time a.
Proof.
  intros H. apply poll_loop_picked in H as (v & t0 & _ & Hq & Hp & Hlast).
  apply query_Ok_inv in Hq as [data Hdata].
  apply filter_and_sort_Ok in Hdata as (Hfits & Hsorted & _).
  pose proof (pick_slot_elem _ _ _ _ Hp) as Hin.
  split; [by exists t0|]. split; [exact Hp|]. split; [exact Hin|].
  rewrite Forall_forall in Hfits. split; [by apply Hfits|]. split; [|exact Hsorted].
  destruct Hsorted as (ks & Hks & _).
  apply list_elem_of_lookup in Hin as [i Hi].
  destruct (Forall2_lookup_l _ _ _ _ _ Hks Hi) as (k & _ & Hk). by exists k.
Qed.

(** X12: when [poll_for_slot] returns a slot, the list it returns with it
    is the result of the last query made, the slot is what [pick_slot]
    chose from that list, and so it is an element of the list, has room
    for the party and a readable time; the list is sorted by time. *)
Theorem picked_slot_sound (c : call) (start t : Q) (script : list visit)
    (p : dict) (a : list dict) (tr : list event) :
  poll_for_slot c start script = (Finished t (Ok (Some p, a)), tr) →
  (∃ t0, last tr = Some (Query t0 (Ok a))) ∧
  pick_slot a (mode c) (target_time c) = Ok (Some p) ∧
  p ∈ a ∧ fits (players c) p = true ∧ (∃ k, time_is p k) ∧ sorted_by_time a.
Proof. apply poll_for_slot_picked. Qed.

Lemma picked_slot_sound_witness : fits 2 slot_0930 = true.
Proof.
  apply (picked_slot_sound (sample_call "earliest" None 1 180) 0 21
           [down 1; down 1; down 1; serving [slot_0930] 1]
           slot_0930 [slot_0930]
           [Query 0 (Raise RequestException); BackoffSleep 1 2; PollSleep 3 1;
            Query 4 (Raise RequestException); BackoffSleep 5 4; PollSleep 9 1;
            Query 10 (Raise RequestException); BackoffSleep 11 8; PollSleep 19 1;
            Query 20 (Ok [slot_0930])]).
  vm_compute. reflexivity.
Defined.

(** X13: the loop always makes its first query, at entry, and when the
    waiting time is zero or negative that is the only one: the call is
    over after one pass, without a poll sleep. *)
Theorem single_attempt_without_wait (c : call) (start : Q) (v : visit)
    (rest : list visit) :
  (∃ tr, (poll_for_slot c start (v :: rest)).2 = Query start (query c v) :: tr) ∧
  ((max_wait_seconds c <= 0)%Q → (0 <= elapsed v)%Q →
   ∃ t r tr,
     poll_for_slot c start (v :: rest) = (Finished t r, Query start (query c v) :: tr) ∧
     Forall (λ e, is_query e = false ∧ is_poll_sleep e = false) tr).
Proof.
  unfold poll_for_slot. cbn [poll_loop]. split.
  - destruct (loop_body c _ v (initial_state start)) as [[st1|t1 r1] evs] eqn:Hbody.
    + destruct (poll_loop c _ rest st1) as [o' evs'].
      body_cases Hbody; by eexists.
    + body_cases Hbody; by eexists.
  - intros Hwait Hv.
    destruct (loop_body c _ v (initial_state start)) as [[st1|t1 r1] evs] eqn:Hbody.
    + exfalso. pose proof (next_backoff_pos 0%Q ltac:(lra)) as Hnb.
      unfold initial_state in Hbody. body_cases Hbody; lra.
    + body_cases Hbody; eexists _, _, _; (split; [reflexivity|]);
        repeat constructor.
Qed.

Lemma single_attempt_without_wait_witness :
  ∃ t r tr,
    poll_for_slot (sample_call "earliest" None 1 0) 5 [serving [] 1; down 1]
    = (Finished t r,
       Query 5 (query (sample_call "earliest" None 1 0) (serving [] 1)) :: tr) ∧
    Forall (λ e, is_query e = false ∧ is_poll_sleep e = false) tr.
Proof.
  apply (proj2 (single_attempt_without_wait (sample_call "earliest" None 1 0) 5
                  (serving [] 1) [down 1])); discriminate.
Defined.

Lemma loop_body_shape c deadline v st s evs :
  loop_body c deadline v st = (s, evs) →
  Forall (λ e, match e with PollSleep _ d => d = poll_every c | _ => True end) evs ∧
  length (List.filter is_query evs) = 1%nat ∧
  length (List.filter is_poll_sleep evs)
  = match s with Continue _ => 1%nat | Done _ _ => 0%nat end.
Proof.
  intros H. body_cases H; repeat split; repeat constructor.
Qed.

(** X14: between any two queries the loop sleeps once for [poll_every],
    never another duration: every poll sleep of a call lasts [poll_every],
    a call that is over has made one query more than poll sleeps, and no
    call makes more queries than the world has visits. *)
Theorem poll_sleeps_between_queries (c : call) (start : Q) (script : list visit) :
  let run := poll_for_slot c start script in
  Forall (λ e, match e with PollSleep _ d => d = poll_every c | _ => True end) run.2 ∧
  length (List.filter is_query run.2)
  = (match run.1 with Finished _ _ => 1 | Polling _ => 0 end
     + length (List.filter is_poll_sleep run.2))%nat ∧
  (length (List.filter is_query run.2) ≤ length script)%nat.
Proof.
  cbn zeta. unfold poll_for_slot.
  generalize (initial_state start). generalize (start + max_wait_seconds c)%Q.
  intros deadline. induction script as [|v rest IH]; intros st; cbn [poll_loop].
  - repeat split; constructor.
  - destruct (loop_body c deadline v st) as [[st1|t1 r1] evs] eqn:Hbody;
      apply loop_body_shape in Hbody as (Hd & Hq & Hp).
    + specialize (IH st1). destruct (poll_loop c deadline rest st1) as [o' evs'].
      cbn [fst snd] in *. destruct IH as (IHd & IHq & IHlen).
      rewrite !List.filter_app, !length_app, Hq, Hp, IHq. repeat split.
      * by apply Forall_app.
      * lia.
      * cbn [length]. lia.
    + cbn [fst snd length]. rewrite Hq, Hp. repeat split; [exact Hd | lia].
Qed.



(** ** [sleep_until] *)

Lemma inject_nat_succ n :
  (inject_Z (Z.of_nat (S n)) == inject_Z (Z.of_nat n) + 1)%Q.
Proof. by rewrite Nat2Z.inj_succ, <- Z.add_1_r, inject_Z_plus. Qed.

Lemma inject_nat_nonneg n : (0 <= inject_Z (Z.of_nat n))%Q.
Proof. change 0%Q with (inject_Z 0). rewrite <- Zle_Qle. lia. Qed.



(** On a wall clock that is [time.time()] itself the two loops are one. *)
Lemma sleep_until_loop_zone fuel :
  ∀ target wall,
    sleep_until_loop fuel target wall = sleep_until_zone fuel (λ t, t) target wall.
Proof.
  induction fuel as [|n IH]; intros target wall; [reflexivity|].
  cbn [sleep_until_loop sleep_until_zone].
  destruct (Qle_bool (target - wall) 0); [reflexivity|]. by rewrite IH.
Qed.

Lemma sleep_until_passes_enough target wall :
  (2 * (target - wall)
   <= inject_Z (Z.of_nat (sleep_until_passes target wall)) - 1)%Q.
Proof.
  unfold sleep_until_passes. rewrite inject_nat_succ.
  pose proof (Qle_ceiling (2 * (target - wall))) as Hceil.
  assert (inject_Z (Qceiling (2 * (target - wall)))
          <= inject_Z (Z.of_nat (Z.to_nat (Qceiling (2 * (target - wall))))))%Q.
  { rewrite <- Zle_Qle. lia. }
  lra.
Qed.




(** ** The start time [main] waits for *)

Lemma day_bounds (wall : Q) :
  (86400 * inject_Z (Qfloor (wall / 86400)) <= wall)%Q ∧
  (wall < 86400 * inject_Z (Qfloor (wall / 86400)) + 86400)%Q.
Proof.
  pose proof (Qfloor_le (wall / 86400)) as Hle.
  pose proof (Qlt_floor (wall / 86400)) as Hlt.
  rewrite inject_Z_plus in Hlt. change (inject_Z 1) with 1%Q in Hlt.
  assert (wall == wall / 86400 * 86400)%Q as Hwall by (field; discriminate).
  set (x := (wall / 86400)%Q) in *.
  generalize dependent (inject_Z (Qfloor x)). intros d Hle Hlt. clearbody x.
  split; lra.
Qed.

Lemma replace_time_inv wall hh mm t :
  replace_time wall hh mm = Ok t →
  0 ≤ hh ≤ 23 ∧ 0 ≤ mm ≤ 59 ∧
  t = 86400 * Qfloor (wall / 86400) + 3600 * hh + 60 * mm.
Proof.
  unfold replace_time. destruct (negb _); [discriminate|].
  destruct (0 <=? hh) eqn:H1, (hh <=? 23) eqn:H2, (0 <=? mm) eqn:H3,
    (mm <=? 59) eqn:H4; try discriminate.
  intros [= <-]. apply Z.leb_le in H1, H2, H3, H4. by repeat split.
Qed.

Lemma wait_target_bounds (wall : Q) (s : string) :
  (∀ t, wait_target wall s = Ok t →
     (wall < inject_Z t)%Q ∧ (inject_Z t <= wall + 86400)%Q ∧
     ∃ h m, parse_hhmm s = Ok (h, m) ∧ 0 ≤ h ≤ 23 ∧ 0 ≤ m ≤ 59 ∧
            t mod 86400 = 3600 * h + 60 * m) ∧
  (∀ h m, parse_hhmm s = Ok (h, m) →
     fits_c_int h = true → fits_c_int m = true → ¬ (0 ≤ h ≤ 23 ∧ 0 ≤ m ≤ 59) →
     wait_target wall s = Raise ValueError) ∧
  (∀ h m, parse_hhmm s = Ok (h, m) → fits_c_int h && fits_c_int m = false →
     wait_target wall s = Raise OverflowError).
Proof.
  unfold wait_target. split.
  - intros t. destruct (parse_hhmm s) as [[h m]|] eqn:Hparse; [|discriminate].
    cbn [mbind result_bind fst snd].
    destruct (replace_time wall h m) as [t0|] eqn:Hrep; [|discriminate].
    cbn [mbind result_bind]. intros [= <-].
    apply replace_time_inv in Hrep as (Hh & Hm & ->).
    destruct (day_bounds wall) as [Hlo Hhi].
    set (day := Qfloor (wall / 86400)) in *.
    assert (Ht0 : (inject_Z (86400 * day + 3600 * h + 60 * m)
                   == 86400 * inject_Z day + inject_Z (3600 * h + 60 * m))%Q).
    { rewrite <- Z.add_assoc, inject_Z_plus, inject_Z_mult. reflexivity. }
    assert (0 <= inject_Z (3600 * h + 60 * m))%Q as Hs0.
    { change 0%Q with (inject_Z 0). rewrite <- Zle_Qle. lia. }
    assert (inject_Z (3600 * h + 60 * m) < 86400)%Q as Hs1.
    { change 86400%Q with (inject_Z 86400). rewrite <- Zlt_Qlt. lia. }
    assert (Hmod : ∀ q, 0 ≤ q →
              (86400 * day + 3600 * h + 60 * m + 86400 * q) mod 86400
              = 3600 * h + 60 * m).
    { intros q _. symmetry. apply (Z.mod_unique_pos _ _ (day + q)); lia. }
    destruct (Qle_bool _ wall) eqn:Hpast.
    + apply Qle_bool_iff in Hpast. rewrite inject_Z_plus.
      change (inject_Z 86400) with 86400%Q.
      split; [|split].
      * revert Ht0 Hs0 Hs1 Hpast Hlo Hhi.
        generalize (inject_Z (86400 * day + 3600 * h + 60 * m)),
          (inject_Z (3600 * h + 60 * m)), (inject_Z day). intros; lra.
      * revert Ht0 Hs0 Hs1 Hpast Hlo Hhi.
        generalize (inject_Z (86400 * day + 3600 * h + 60 * m)),
          (inject_Z (3600 * h + 60 * m)), (inject_Z day). intros; lra.
      * exists h, m. repeat split; try lia; rewrite <- (Hmod 1) by lia; f_equal; lia.
    + apply Qle_bool_false in Hpast. split; [|split].
      * exact Hpast.
      * revert Ht0 Hs0 Hs1 Hpast Hlo Hhi.
        generalize (inject_Z (86400 * day + 3600 * h + 60 * m)),
          (inject_Z (3600 * h + 60 * m)), (inject_Z day). intros; lra.
      * exists h, m. repeat split; try lia; rewrite <- (Hmod 0) by lia; f_equal; lia.
  - split.
    + intros h m Hparse Hh Hm Hrange. rewrite Hparse. cbn [mbind result_bind fst snd].
      unfold replace_time. rewrite Hh, Hm. cbn [andb negb].
      destruct (0 <=? h) eqn:H1, (h <=? 23) eqn:H2, (0 <=? m) eqn:H3,
        (m <=? 59) eqn:H4; try reflexivity.
      exfalso. apply Hrange. lia.
    + intros h m Hparse Hfit. rewrite Hparse. cbn [mbind result_bind fst snd].
      unfold replace_time. by rewrite Hfit.
Qed.

(** X17: the instant [main] waits for is strictly after now and at most a
    day after now on the wall clock, at the hour and minute asked for; an
    hour outside 0..23 or a minute outside 0..59 is a [ValueError] when
    both fit a C [int], and an [OverflowError] when one does not. *)
Theorem wait_target_next_occurrence (wall : Q) (s : string) :
  (∀ t, wait_target wall s = Ok t →
     (wall < inject_Z t)%Q ∧ (inject_Z t <= wall + 86400)%Q ∧
     ∃ h m, parse_hhmm s = Ok (h, m) ∧ 0 ≤ h ≤ 23 ∧ 0 ≤ m ≤ 59 ∧
            t mod 86400 = 3600 * h + 60 * m) ∧
  (∀ h m, parse_hhmm s = Ok (h, m) →
     fits_c_int h = true → fits_c_int m = true → ¬ (0 ≤ h ≤ 23 ∧ 0 ≤ m ≤ 59) →
     wait_target wall s = Raise ValueError) ∧
  (∀ h m, parse_hhmm s = Ok (h, m) → fits_c_int h && fits_c_int m = false →
     wait_target wall s = Raise OverflowError).
Proof. apply wait_target_bounds. Qed.

Lemma wait_target_next_occurrence_witness :
  (100000 < inject_Z 118800)%Q ∧ (inject_Z 118800 <= 100000 + 86400)%Q ∧
  ∃ h m, parse_hhmm "09:00" = Ok (h, m) ∧ 0 ≤ h ≤ 23 ∧ 0 ≤ m ≤ 59 ∧
         118800 mod 86400 = 3600 * h + 60 * m.
Proof.
  apply (proj1 (wait_target_next_occurrence 100000 "09:00") 118800).
  vm_compute. reflexivity.
Defined.

(** ** [reserve] and [main] *)

Lemma reserve_Ok_inv net base tok fecha hora rec p tmo d :
  reserve net base tok fecha hora rec p tmo = Ok d →
  ∃ r, net (rstrip_slash base +:+ "/api/GolfReservaAlta")
           (reserve_payload tok fecha hora rec p) tmo = Ok r ∧
       http_error (commit_status r) = false ∧ commit_json r = Ok d.
Proof.
  unfold reserve, post_commit. unfold mbind at 1 2, result_bind.
  destruct (net _ _ tmo) as [r|]; [|discriminate].
  destruct (http_error (commit_status r)) eqn:Hs; [discriminate|].
  intros H. by exists r.
Qed.

(** X18: what [reserve] sends and when it fails.  The request carries the
    token, the party size and the date, time and course it was given, and
    nothing else; an answer with an HTTP error status is a
    [RequestException] whatever its body, and an exception of the network
    comes out as it is. *)
Theorem reserve_request (net : commit_network) (base tok : string)
    (fecha hora rec : value) (p : Z) (tmo : Q) :
  let payload := reserve_payload tok fecha hora rec p in
  let reply := net (rstrip_slash base +:+ "/api/GolfReservaAlta") payload tmo in
  dom payload = {["Token"; "NumeroJugadores"; "Fecha"; "Hora"; "Recorrido"]} ∧
  payload !! "Token" = Some (VStr tok) ∧
  payload !! "NumeroJugadores" = Some (VInt p) ∧
  payload !! "Fecha" = Some fecha ∧
  payload !! "Hora" = Some hora ∧
  payload !! "Recorrido" = Some rec ∧
  (∀ e, reply = Raise e → reserve net base tok fecha hora rec p tmo = Raise e) ∧
  (∀ r, reply = Ok r → 400 ≤ commit_status r < 600 →
     reserve net base tok fecha hora rec p tmo = Raise RequestException) ∧
  (∀ r, reply = Ok r → ¬ (400 ≤ commit_status r < 600) →
     reserve net base tok fecha hora rec p tmo = commit_json r).
Proof.
  cbn zeta. unfold reserve_payload.
  split; [rewrite !dom_insert_L, dom_empty_L; set_solver|].
  repeat split; try (by simplify_map_eq).
  - intros e He. unfold reserve, post_commit, reserve_payload. by rewrite He.
  - intros r Hr Hs. unfold reserve, post_commit, reserve_payload. rewrite Hr.
    cbn [mbind result_bind]. unfold http_error.
    replace (400 <=? commit_status r) with true by lia.
    by replace (commit_status r <? 600) with true by lia.
  - intros r Hr Hs. unfold reserve, post_commit, reserve_payload. rewrite Hr.
    cbn [mbind result_bind]. unfold http_error.
    destruct (400 <=? commit_status r) eqn:H1, (commit_status r <? 600) eqn:H2;
      try reflexivity. lia.
Qed.

Lemma reserve_request_witness :
  reserve (λ _ _ _, Ok {| commit_status := 409; commit_json := Ok ∅ |})
    "https://rcgs.abiz.es:8228" "secret" (VStr "2025-05-01") (VStr "09:30")
    (VStr "18 HOYOS") 2 5
  = Raise RequestException.
Proof.
  apply (proj1 (proj2 (proj2 (proj2 (proj2 (proj2 (proj2 (proj2
           (reserve_request (λ _ _ _, Ok {| commit_status := 409; commit_json := Ok ∅ |})
              "https://rcgs.abiz.es:8228" "secret" (VStr "2025-05-01") (VStr "09:30")
              (VStr "18 HOYOS") 2 5))))))))
         {| commit_status := 409; commit_json := Ok ∅ |}).
  - reflexivity.
  - simpl. lia.
Defined.


Lemma picked_is_truthy c start script t p a tr :
  poll_for_slot c start script = (Finished t (Ok (Some p, a)), tr) →
  pick_truthy (Some p) = true.
Proof.
  intros H. apply poll_for_slot_picked in H as (_ & _ & _ & _ & [k Hk] & _).
  unfold time_is, hora_minutes in Hk.
  destruct (p !! "Hora") as [v|] eqn:Hv; [|discriminate].
  cbn [pick_truthy]. destruct (size p) eqn:Hsize; [|reflexivity].
  apply map_size_empty_iff in Hsize. subst p. by rewrite lookup_empty in Hv.
Qed.






(** X21: with [--dry-run] the reservation service plays no part: [main]
    ends the same way whatever that service would answer, and never with
    status 3. *)
Theorem dry_run_never_books (w : world) (a : args) (b : commit_network) :
  arg_dry_run a = true →
  main (with_booking b w) a = main w a ∧ main w a ≠ Exit 3.
Proof.
  intros Hdry. unfold main, with_booking, start_gate.
  cbn [environ_token zone clock patience visits].
  rewrite Hdry. split.
  - repeat match goal with
      | |- context [match ?x with _ => _ end] => destruct x
      end; reflexivity.
  - destruct (py_or _ _) as [[|c0 s0]|]; try discriminate.
    repeat match goal with
      | |- context [match ?x with _ => _ end] => destruct x
      end; discriminate.
Qed.

Lemma dry_run_never_books_witness :
  main (with_booking (booking_replying 500)
          (sample_world None [slot_0930] (booking_replying 200)))
       (sample_args (Some "secret") true)
  = main (sample_world None [slot_0930] (booking_replying 200))
         (sample_args (Some "secret") true).
Proof.
  apply (dry_run_never_books (sample_world None [slot_0930] (booking_replying 200))
           (sample_args (Some "secret") true) (booking_replying 500)).
  reflexivity.
Defined.

Lemma book_Exit_0 w a tok p :
  book w a tok p = Exit 0 →
  ∃ fecha hora rec d,
    p !! "Fecha" = Some fecha ∧ p !! "Hora" = Some hora ∧
    p !! "Recorrido" = Some rec ∧
    reserve (booking w) (arg_base_url a) tok fecha hora rec
      (arg_players a) (arg_timeout a) = Ok d.
Proof.
  unfold book, getitem.
  destruct (p !! "Fecha") as [fecha|]; [|discriminate].
  destruct (p !! "Hora") as [hora|]; [|discriminate].
  destruct (p !! "Recorrido") as [rec|]; [|discriminate].
  cbn [mbind result_bind].
  destruct (reserve _ _ _ _ _ _ _ _) as [d|[]] eqn:Hres; try discriminate.
  intros _. by exists fecha, hora, rec, d.
Qed.

(** X22: when [main] exits with 0 and it was no dry run, the polling had
    returned a slot with room for the party, and the reservation service
    answered, without an error status and with a JSON body, the one request
    that names the date, the time and the course of that very slot, the
    party size and the token. *)
Theorem main_books_the_pick (w : world) (a : args) :
  main w a = Exit 0 → arg_dry_run a = false →
  ∃ tok start t p avails fecha hora rec r d,
    py_or (arg_token a) (environ_token w) = Some tok ∧
    start_gate w a = Ok (Some start) ∧
    (poll_for_slot (call_of_args tok a) start (visits w)).1
    = Finished t (Ok (Some p, avails)) ∧
    fits (arg_players a) p = true ∧
    p !! "Fecha" = Some fecha ∧ p !! "Hora" = Some hora ∧
    p !! "Recorrido" = Some rec ∧
    booking w (rstrip_slash (arg_base_url a) +:+ "/api/GolfReservaAlta")
      (reserve_payload tok fecha hora rec (arg_players a)) (arg_timeout a) = Ok r ∧
    http_error (commit_status r) = false ∧ commit_json r = Ok d.
Proof.
  intros Hmain Hdry. unfold main in Hmain. rewrite Hdry in Hmain.
  destruct (py_or _ _) as [[|c0 s0]|] eqn:Htok; try discriminate.
  destruct (start_gate w a) as [[start|]|]; try discriminate.
  destruct (poll_for_slot _ start (visits w)) as [o tr] eqn:Hrun. cbn [fst] in Hmain.
  destruct o as [t [[[p|] avails]|]|]; try discriminate.
  rewrite (picked_is_truthy _ _ _ _ _ _ _ Hrun) in Hmain.
  apply book_Exit_0 in Hmain as (fecha & hora & rec & d & Hf & Hh & Hr & Hres).
  apply reserve_Ok_inv in Hres as (r & Hnet & Hstatus & Hjson).
  pose proof (poll_for_slot_picked _ _ _ _ _ _ _ Hrun) as (_ & _ & _ & Hfits & _).
  exists (String c0 s0), start, t, p, avails, fecha, hora, rec, r, d.
  rewrite Hrun. by repeat split.
Qed.

Lemma main_books_the_pick_witness :
  ∃ tok start t p avails fecha hora rec r d,
    py_or (Some "secret") None = Some tok ∧
    start_gate (sample_world None [slot_0930] (booking_replying 200))
      (sample_args (Some "secret") false) = Ok (Some start) ∧
    (poll_for_slot (call_of_args tok (sample_args (Some "secret") false)) start
       [serving [slot_0930] 1]).1
    = Finished t (Ok (Some p, avails)) ∧
    fits 2 p = true ∧
    p !! "Fecha" = Some fecha ∧ p !! "Hora" = Some hora ∧
    p !! "Recorrido" = Some rec ∧
    booking_replying 200
      (rstrip_slash "https://rcgs.abiz.es:8228" +:+ "/api/GolfReservaAlta")
      (reserve_payload tok fecha hora rec 2) 5%Q = Ok r ∧
    http_error (commit_status r) = false ∧ commit_json r = Ok d.
Proof.
  apply (main_books_the_pick (sample_world None [slot_0930] (booking_replying 200))
           (sample_args (Some "secret") false)).
  - vm_compute. reflexivity.
  - reflexivity.
Defined.

(** X23: how a reservation attempt can go wrong in [main].  If the picked
    slot lacks its date, time or course, the [KeyError] is not caught and
    no request is made; otherwise a [RequestException] from [reserve], an
    HTTP error status included, gives exit status 3, and any other
    exception is not caught. *)
Theorem book_failures (w : world) (a : args) (tok : string) (p : dict) :
  ((p !! "Fecha" = None ∨ p !! "Hora" = None ∨ p !! "Recorrido" = None) →
     book w a tok p = Uncaught KeyError) ∧
  (∀ fecha hora rec e,
     p !! "Fecha" = Some fecha → p !! "Hora" = Some hora →
     p !! "Recorrido" = Some rec →
     reserve (booking w) (arg_base_url a) tok fecha hora rec
       (arg_players a) (arg_timeout a) = Raise e →
     book w a tok p = if decide (e = RequestException) then Exit 3 else Uncaught e).
Proof.
  unfold book, getitem. split.
  - intros [H|[H|H]]; rewrite H;
      repeat match goal with
        | |- context [match ?x with Some _ => _ | None => _ end] => destruct x
        end; reflexivity.
  - intros fecha hora rec e -> -> -> Hres. cbn [mbind result_bind].
    rewrite Hres. by destruct e.
Qed.

Lemma book_failures_witness :
  book (sample_world None [slot_undated] (booking_replying 200))
       (sample_args (Some "secret") false) "secret" slot_undated
  = Uncaught KeyError.
Proof.
  apply (proj1 (book_failures (sample_world None [slot_undated] (booking_replying 200))
                  (sample_args (Some "secret") false) "secret" slot_undated)).
  left. reflexivity.
Defined.

Lemma inject_nat_le n m :
  (n ≤ m)%nat → (inject_Z (Z.of_nat n) <= inject_Z (Z.of_nat m))%Q.
Proof. intros H. rewrite <- Zle_Qle. lia. Qed.

Lemma sleep_until_zone_steady fuel :
  ∀ wall_of o hi target clock,
    (∀ u, (clock <= u)%Q → (u <= hi)%Q → (wall_of u == u + o)%Q) →
    (clock <= hi)%Q → (target - o <= hi)%Q →
    (2 * (target - (clock + o)) <= inject_Z (Z.of_nat fuel) - 1)%Q → (1 ≤ fuel)%nat →
    ∃ c ds, sleep_until_zone fuel wall_of target clock = Some (c, ds) ∧
      ((target <= clock + o)%Q → c = clock ∧ ds = []) ∧
      ((clock + o < target)%Q → (c + o == target)%Q) ∧
      (clock <= c)%Q ∧
      Forall (λ d, (0 < d)%Q ∧ (d <= 1 # 2)%Q) ds.
Proof.
  induction fuel as [|n IH]; intros wall_of o hi target clock Hsteady Hhi Hend Hfuel Hpos; [lia|].
  rewrite inject_nat_succ in Hfuel. cbn [sleep_until_zone].
  pose proof (Hsteady clock ltac:(lra) Hhi) as Hw.
  destruct (Qle_bool (target - wall_of clock) 0) eqn:Hdelta.
  - apply Qle_bool_iff in Hdelta. exists clock, [].
    split; [reflexivity|]. split; [done|]. split; [intros ?; lra|].
    split; [lra | constructor].
  - apply Qle_bool_false in Hdelta.
    assert (1 ≤ n)%nat as Hn.
    { destruct n; [|lia]. change (inject_Z (Z.of_nat 0)) with 0%Q in Hfuel. lra. }
    assert (1 <= inject_Z (Z.of_nat n))%Q as Hn'.
    { destruct n as [|m]; [lia|]. rewrite inject_nat_succ.
      pose proof (inject_nat_nonneg m). lra. }
    unfold py_min. destruct (Qle_bool (target - wall_of clock) (1 # 2)) eqn:Hhalf.
    + apply Qle_bool_iff in Hhalf.
      destruct (IH wall_of o hi target (clock + (target - wall_of clock))%Q)
        as (c & ds & Hrun & Hpast & _ & Hle & Hds);
        [intros u Hu1 Hu2; apply Hsteady; lra | lra | lra | lra | exact Hn |].
      rewrite Hrun. exists c, ((target - wall_of clock)%Q :: ds).
      destruct Hpast as [-> ->]; [lra|].
      split; [reflexivity|]. split; [intros ?; lra|]. split; [intros _; lra|].
      split; [lra|]. repeat constructor; lra.
    + apply Qle_bool_false in Hhalf.
      destruct (IH wall_of o hi target (clock + (1 # 2))%Q)
        as (c & ds & Hrun & _ & Hfuture & Hle & Hds);
        [intros u Hu1 Hu2; apply Hsteady; lra | lra | lra | lra | exact Hn |].
      rewrite Hrun. exists c, ((1 # 2)%Q :: ds).
      split; [reflexivity|]. split; [intros ?; lra|].
      split; [intros _; apply Hfuture; lra|].
      split; [lra|]. constructor; [split; lra | exact Hds].
Qed.

(** X24: the wait at the top of [main].  Without [--wait-until] (or with
    an empty one) polling starts at once.  With it, the zone is looked up
    first, so an unknown zone raises before the time is read.  When the
    zone and the time are fine, the offset of the zone does not change in
    the day that follows entry and the world lasts long enough, polling
    starts when the wall clock of the zone reads the target, which is
    after entry and at most a day after. *)
Theorem start_gate_spec (w : world) (a : args) :
  (truthy (arg_wait_until a) = false → start_gate w a = Ok (Some (clock w))) ∧
  (truthy (arg_wait_until a) = true →
   (∀ e, zone w (arg_tz a) = Raise e → start_gate w a = Raise e) ∧
   (∀ off s t,
      arg_wait_until a = Some s → zone w (arg_tz a) = Ok off →
      wait_target (clock w + off (clock w)) s = Ok t →
      (∀ u, (clock w <= u)%Q → (u <= clock w + 86400)%Q →
            (off u == off (clock w))%Q) →
      (sleep_until_passes (inject_Z t) (clock w + off (clock w)) ≤ patience w)%nat →
      ∃ start, start_gate w a = Ok (Some start) ∧
               (start + off (clock w) == inject_Z t)%Q ∧
               (clock w < start)%Q ∧ (start <= clock w + 86400)%Q)).
Proof.
  unfold start_gate. split.
  - by destruct (arg_wait_until a) as [[|c s]|].
  - intros Hw. destruct (arg_wait_until a) as [[|c s]|]; try discriminate. split.
    + intros e He. cbn [truthy]. by rewrite He.
    + intros off s' t [= <-] Hoff Ht Hsteady Hpatience. cbn [truthy]. rewrite Hoff.
      cbn [mbind result_bind]. rewrite Ht. cbn [mbind result_bind].
      destruct (proj1 (wait_target_bounds _ _) t Ht) as (Hfuture & Hday & _).
      pose proof (sleep_until_passes_enough (inject_Z t) (clock w + off (clock w))) as Hfuel.
      pose proof (inject_nat_le _ _ Hpatience) as Hmore.
      destruct (sleep_until_zone_steady (patience w) (λ u, (u + off u)%Q)
                  (off (clock w)) (clock w + 86400)%Q (inject_Z t) (clock w))
        as (start & ds & Hrun & _ & Hreach & Hle & _).
      * intros u Hu1 Hu2. cbn beta. rewrite (Hsteady u Hu1 Hu2). reflexivity.
      * lra.
      * lra.
      * lra.
      * unfold sleep_until_passes in Hpatience. lia.
      * rewrite Hrun. specialize (Hreach Hfuture).
        exists start. split; [reflexivity|]. repeat split; lra.
Qed.

Lemma start_gate_spec_witness :
  ∃ start, start_gate waiting_world waiting_args = Ok (Some start) ∧
           (start + 7200 == inject_Z 10800)%Q ∧
           (clock waiting_world < start)%Q ∧
           (start <= clock waiting_world + 86400)%Q.
Proof.
  apply (proj2 (proj2 (start_gate_spec waiting_world waiting_args) eq_refl)
           (λ _, 7200%Q) "03:00" 10800).
  - reflexivity.
  - reflexivity.
  - vm_compute. reflexivity.
  - intros u _ _. reflexivity.
  - apply Nat.leb_le. vm_compute. reflexivity.
Defined.

(** ** The polling loop: how it ends *)

Lemma poll_loop_app c deadline s1 s2 :
  ∀ st,
    poll_loop c deadline (s1 ++ s2) st
    = match poll_loop c deadline s1 st with
      | (Polling st', tr1) =>
          let '(o, tr2) := poll_loop c deadline s2 st' in (o, tr1 ++ tr2)
      | (Finished t r, tr1) => (Finished t r, tr1)
      end.
Proof.
  induction s1 as [|v s1 IH]; intros st; cbn [app poll_loop].
  - by destruct (poll_loop c deadline s2 st).
  - destruct (loop_body c deadline v st) as [[st1|t1 r1] evs]; [|reflexivity].
    rewrite IH. destruct (poll_loop c deadline s1 st1) as [[t r|st'] tr1]; [reflexivity|].
    destruct (poll_loop c deadline s2 st') as [o tr2]. by rewrite app_assoc.
Qed.

(** X25: a slot that is offered while the call is still polling is taken
    at once: the call returns it with the list of that query as soon as
    the query is over, without sleeping and whether or not the deadline
    has passed meanwhile.  And a call that is over is not touched by what
    the service would have answered later. *)
Theorem offered_slot_is_taken (c : call) (start : Q) (before after : list visit) :
  (∀ st tr v a p,
     poll_for_slot c start before = (Polling st, tr) →
     query c v = Ok a → pick_slot a (mode c) (target_time c) = Ok (Some p) →
     poll_for_slot c start (before ++ v :: after)
     = (Finished (now st + elapsed v) (Ok (Some p, a)), tr ++ [Query (now st) (Ok a)])) ∧
  (∀ t r tr,
     poll_for_slot c start before = (Finished t r, tr) →
     poll_for_slot c start (before ++ after) = (Finished t r, tr)).
Proof.
  unfold poll_for_slot. split.
  - intros st tr v a p Hbefore Hq Hp. rewrite poll_loop_app, Hbefore.
    cbn [poll_loop]. unfold loop_body. fold (query c v). by rewrite Hq, Hp.
  - intros t r tr Hbefore. by rewrite poll_loop_app, Hbefore.
Qed.

Lemma offered_slot_is_taken_witness :
  poll_for_slot retry_call 0 ([down 1; down 1] ++ serving [slot_0930] 1 :: [down 1])
  = (Finished (now {| now := 10; backoff := 4; last_avails := [] |}
               + elapsed (serving [slot_0930] 1))
       (Ok (Some slot_0930, [slot_0930])),
     [Query 0 (Raise RequestException); BackoffSleep 1 2; PollSleep 3 1;
      Query 4 (Raise RequestException); BackoffSleep 5 4; PollSleep 9 1]
     ++ [Query (now {| now := 10; backoff := 4; last_avails := [] |}) (Ok [slot_0930])]).
Proof.
  apply (proj1 (offered_slot_is_taken retry_call 0 [down 1; down 1] [down 1])).
  - vm_compute. reflexivity.
  - vm_compute. reflexivity.
  - reflexivity.
Defined.

Lemma loop_body_gives_up c deadline v st t a evs :
  loop_body c deadline v st = (Done t (Ok (None, a)), evs) → (deadline <= t)%Q.
Proof. intros H. body_cases H; assumption. Qed.

(** X26: the loop never gives up early: whenever [poll_for_slot] returns
    without a slot, the clock has reached the deadline. *)
Theorem no_early_give_up (c : call) (start t : Q) (script : list visit)
    (a : list dict) (tr : list event) :
  poll_for_slot c start script = (Finished t (Ok (None, a)), tr) →
  (start + max_wait_seconds c <= t)%Q.
Proof.
  unfold poll_for_slot. generalize (initial_state start).
  generalize (start + max_wait_seconds c)%Q. intros deadline.
  revert tr. induction script as [|v rest IH]; intros tr st; cbn [poll_loop]; [discriminate|].
  destruct (loop_body c deadline v st) as [[st1|t1 r1] evs] eqn:Hbody.
  - destruct (poll_loop c deadline rest st1) as [o' evs'] eqn:Hrest.
    intros [= -> <-]. by eapply IH.
  - intros [= -> -> <-]. by eapply loop_body_gives_up.
Qed.

Lemma no_early_give_up_witness :
  (0 + max_wait_seconds (sample_call "closest" (Some "09:00") 1 3) <= 5)%Q.
Proof.
  apply (no_early_give_up (sample_call "closest" (Some "09:00") 1 3) 0 5
           [serving [slot_0800] 1; down 1; serving [slot_0800] 1] [slot_0800]
           [Query 0 (Ok [slot_0800]); PollSleep 1 1;
            Query 2 (Raise RequestException); BackoffSleep 3 2]).
  vm_compute. reflexivity.
Defined.

(** ** What the availability request holds *)

(** The availability request has five fields and no other: the token, the
    date, the course and the party size as given, and the time filter. *)
Lemma availability_payload_fields (tok day rec : string) (p : Z)
    (fh : option string) :
  let payload := availability_payload tok day rec p fh in
  dom payload
  = {["Token"; "FiltroFecha"; "FiltroRecorrido"; "FiltroJugadores"; "FiltroHora"]} ∧
  payload !! "Token" = Some (VStr tok) ∧
  payload !! "FiltroFecha" = Some (VStr day) ∧
  payload !! "FiltroRecorrido" = Some (VStr rec) ∧
  payload !! "FiltroJugadores" = Some (VInt p).
Proof.
  cbn zeta. unfold availability_payload.
  destruct fh as [[|c s]|]; cbn [truthy];
    (split; [rewrite !dom_insert_L, dom_empty_L; set_solver|]);
    repeat split; by simplify_map_eq.
Qed.
